(** * engine.js: the game loop and the state-dependent renderer

    A shallow embedding of [src/js/engine.js].  The engine is a closure over
    one mutable variable ([lastTime]), the global [game] object and the 2D
    canvas context [ctx].  Its functions are written here in a small
    state-and-exception monad over a [World] that holds exactly those, plus
    the ordered record of every call the engine makes on its collaborators
    (the canvas context, the entities, the host page).

    The entity classes (enemy, player, level, selector), [Resources] and the
    [game] object live in files outside [src/]; they enter as the interface
    classes [Entities] and [Host] below. *)

From Stdlib Require Import ZArith List String Bool Lia DecimalString.
From Stdlib Require Import PrimFloat Uint63.
Import ListNotations.
Local Open Scope Z_scope.
Local Open Scope list_scope.

(** ** JavaScript values the engine computes with *)

(** [Number.prototype.toString] on an integral number: decimal digits, with a
    leading minus sign for negatives. *)
Definition toString (n : Z) : string := NilZero.string_of_int (Z.to_int n).

(** [s + n] in JavaScript when the left operand is a string: the number is
    converted to a string and appended. *)
Definition plus_string_number (s : string) (n : Z) : string :=
  String.append s (toString n).

Notation "s +' n" := (plus_string_number s n) (at level 50, left associativity).

(** A millisecond timestamp as the double JavaScript holds (exact below 2^53). *)
Definition number_of_Z (z : Z) : float :=
  if z <? 0 then PrimFloat.opp (PrimFloat.of_uint63 (Uint63.of_Z (- z)))
  else PrimFloat.of_uint63 (Uint63.of_Z z).

(** [lastTime] is [undefined] until [init] runs; [now - undefined] is NaN. *)
Definition number_of_lastTime (t : option Z) : float :=
  match t with
  | Some z => number_of_Z z
  | None => PrimFloat.nan
  end.

(** ** Collaborators defined outside engine.js *)

(** What the engine needs from the entity classes of app.js: the objects
    themselves, the player's readable [sprite], and the effect of the two
    [update] methods on the object they are called on.  The bodies of these
    methods are not part of engine.js: an effect they may have on the rest of
    [game] is not represented, so the properties below speak of the calls the
    engine makes and of the frames it runs where no [update] method is
    called, not of the game the methods leave behind. *)
Class Entities := {
  Enemy : Type;
  Player : Type;
  Scenery : Type;
  Cursor : Type;
  player_sprite : Player -> string;
  enemy_update : Enemy -> float -> Enemy;
  player_update : Player -> Player
}.

Section DataModel.
Context `{Entities}.

(** An entry of [game.selector.characters]; the engine reads ['sprite']. *)
Record Character := mkCharacter { sprite : string }.

Record Selector := mkSelector {
  characters : list Character;
  cursor : Cursor
}.

Record Level := mkLevel {
  enemies : list Enemy;
  scenery : Scenery
}.

(** The global [game] object, with the fields engine.js reads. *)
Record Game := mkGame {
  state : string;
  lvl : Z;
  lives : Z;
  player : Player;
  levels : list Level;
  selector : Selector
}.

(** An image handle, as [Resources.get(url)] returns it. *)
Inductive Image := ResourceImage (url : string).

Definition Resources_get (url : string) : Image := ResourceImage url.

(** Calls on the 2D context; property assignments are recorded as calls. *)
Inductive CtxCall :=
| beginPath
| rect (x y w h : Z)
| set_fillStyle (v : string)
| fill
| set_font (v : string)
| set_textAlign (v : string)
| fillText (text : string) (x y : Z)
| drawImage (img : Image) (x y : Z).

Inductive Receiver :=
| OnEnemy (e : Enemy)
| OnPlayer (p : Player)
| OnLevel (l : Level)
| OnSelector (s : Selector).

Inductive HostCall :=
| jquery_css (sel prop value : string)
| game_resetGame
| requestAnimationFrame_main.

(** One entry of the call record.  A [Call] is a method invoked on an
    entity, with the receiver as it was at the call and the arguments
    passed. *)
Inductive Event :=
| Call (r : Receiver) (method : string) (args : list float)
| Ctx (c : CtxCall)
| HostEv (h : HostCall).

Inductive Error := TypeError (msg : string).

(** [updates_run] and [renders_run] are ghost counters of completed calls
    of [update] and [render]; [clock_reads] counts the samples taken from
    [Date.now]. *)
Record World := mkWorld {
  game : Game;
  lastTime : option Z;
  clock_reads : nat;
  calls : list Event;
  updates_run : nat;
  renders_run : nat
}.

Inductive Outcome (A : Type) :=
| Ok (a : A) (w : World)
| Throw (e : Error) (w : World).
Arguments Ok {A} a w.
Arguments Throw {A} e w.

Definition M (A : Type) : Type := World -> Outcome A.

Definition ret {A} (a : A) : M A := fun w => Ok a w.

Definition bind {A B} (c : M A) (k : A -> M B) : M B :=
  fun w => match c w with
           | Ok a w' => k a w'
           | Throw e w' => Throw e w'
           end.

Definition throw {A} (e : Error) : M A := fun w => Throw e w.

Definition final {A} (o : Outcome A) : World :=
  match o with Ok _ w => w | Throw _ w => w end.

Definition completed {A} (o : Outcome A) : bool :=
  match o with Ok _ _ => true | Throw _ _ => false end.

(** A computation respects a relation between worlds when every run, to a
    return or to a throw, ends in a world related to the one it started in. *)
Definition respects (R : World -> World -> Prop) {A} (c : M A) : Prop :=
  forall w, R w (final (c w)).

Definition same_game (w w' : World) : Prop := game w' = game w.

Definition calls_extended (w w' : World) : Prop :=
  exists more, calls w' = calls w ++ more.
End DataModel.

Arguments Ok {_ A} a w.
Arguments Throw {_ A} e w.

Declare Scope engine_scope.
Delimit Scope engine_scope with engine.
Notation "x <- c ;; k" := (bind c (fun x => k))
  (at level 61, c at next level, right associativity) : engine_scope.
Notation "c ;; k" := (bind c (fun _ => k))
  (at level 61, right associativity) : engine_scope.

(** What the engine needs from the page it runs in: [game.resetGame()] as a
    transformer of the [game] object, and the wall clock as the sequence of
    values successive calls of [Date.now()] return. *)
Class Host `{Entities} := {
  resetGame : Game -> Game;
  wall_clock : nat -> Z
}.

Section Engine.
Context `{Host}.
Local Open Scope engine_scope.

(** *** Access to the world *)

Definition record (ev : Event) : M unit := fun w =>
  Ok tt (mkWorld (game w) (lastTime w) (clock_reads w) (calls w ++ [ev])
                 (updates_run w) (renders_run w)).

Definition ctx (c : CtxCall) : M unit := record (Ctx c).

Definition read_game : M Game := fun w => Ok (game w) w.

Definition write_game (g : Game) : M unit := fun w =>
  Ok tt (mkWorld g (lastTime w) (clock_reads w) (calls w)
                 (updates_run w) (renders_run w)).

Definition read_lastTime : M (option Z) := fun w => Ok (lastTime w) w.

Definition write_lastTime (t : Z) : M unit := fun w =>
  Ok tt (mkWorld (game w) (Some t) (clock_reads w) (calls w)
                 (updates_run w) (renders_run w)).

Definition Date_now : M Z := fun w =>
  Ok (wall_clock (clock_reads w))
     (mkWorld (game w) (lastTime w) (S (clock_reads w)) (calls w)
              (updates_run w) (renders_run w)).

Definition update_done : M unit := fun w =>
  Ok tt (mkWorld (game w) (lastTime w) (clock_reads w) (calls w)
                 (S (updates_run w)) (renders_run w)).

Definition render_done : M unit := fun w =>
  Ok tt (mkWorld (game w) (lastTime w) (clock_reads w) (calls w)
                 (updates_run w) (S (renders_run w))).

(** *** Arrays *)

(** [a[i]] for a number [i]: [undefined] (here [None]) outside the array. *)
Definition index {A} (a : list A) (i : Z) : option A :=
  if i <? 0 then None else nth_error a (Z.to_nat i).

Fixpoint forEach_from {A} (k : nat) (a : list A) (f : A -> nat -> M unit)
  : M unit :=
  match a with
  | [] => ret tt
  | x :: rest => f x k ;; forEach_from (S k) rest f
  end.

(** [a.forEach(f)]: [f] is called with each element and its index. *)
Definition forEach {A} (a : list A) (f : A -> nat -> M unit) : M unit :=
  forEach_from 0 a f.

Fixpoint replace_nth {A} (k : nat) (f : A -> A) (a : list A) : list A :=
  match a, k with
  | [], _ => []
  | x :: rest, O => f x :: rest
  | x :: rest, S k' => x :: replace_nth k' f rest
  end.

(** [game.levels[game.lvl]], the receiver of [.enemies] and [.render]:
    a property read on [undefined] throws. *)
Definition current_level : M Level :=
  g <- read_game ;;
  match index (levels g) (lvl g) with
  | Some l => ret l
  | None => throw (TypeError "game.levels[game.lvl] is undefined")
  end.

(** *** Method calls on entities *)

(** The [game] object after the [k]-th enemy of level [i] has run its
    [update(dt)]: the enemy object is mutated in place, nothing else moves. *)
Definition enemy_updated (i : Z) (dt : float) (g : Game) (k : nat) : Game :=
  mkGame (state g) (lvl g) (lives g) (player g)
    (replace_nth (Z.to_nat i)
       (fun l => mkLevel
                   (replace_nth k (fun e => enemy_update e dt) (enemies l))
                   (scenery l))
       (levels g))
    (selector g).

(** The [game] object after the player has run its [update()]. *)
Definition player_updated (g : Game) : Game :=
  mkGame (state g) (lvl g) (lives g) (player_update (player g))
         (levels g) (selector g).

(** [enemy.update(dt)] on the [k]-th enemy of level [i]: the call is
    recorded, then takes effect. *)
Definition call_enemy_update (i : Z) (dt : float) (enemy : Enemy) (k : nat)
  : M unit :=
  record (Call (OnEnemy enemy) "update" [dt]) ;;
  g <- read_game ;;
  write_game (enemy_updated i dt g k).

(** [game.player.update()]: no argument is passed. *)
Definition call_player_update : M unit :=
  g <- read_game ;;
  record (Call (OnPlayer (player g)) "update" []) ;;
  write_game (player_updated g).

Definition call_render (r : Receiver) : M unit := record (Call r "render" []).

(** *** The functions of engine.js *)

Definition updateEntities (dt : float) : M unit :=
  g <- read_game ;;
  if String.eqb (state g) "game" then
    l <- current_level ;;
    forEach (enemies l) (call_enemy_update (lvl g) dt) ;;
    call_player_update
  else ret tt.

Definition update (dt : float) : M unit :=
  updateEntities dt ;;
  update_done.

Definition render_game : M unit :=
  l <- current_level ;;
  call_render (OnLevel l) ;;
  l' <- current_level ;;
  forEach (enemies l') (fun enemy _ => call_render (OnEnemy enemy)) ;;
  g <- read_game ;;
  call_render (OnPlayer (player g)) ;;
  ctx (set_font "bold 20pt Calibri") ;;
  ctx (set_textAlign "center") ;;
  ctx (set_fillStyle "black") ;;
  g <- read_game ;;
  ctx (fillText ("Lives: " +' lives g) 125 37) ;;
  ctx (fillText ("Level: " +' lvl g +' 1) 375 37).

Definition render_start : M unit :=
  g <- read_game ;;
  call_render (OnSelector (selector g)) ;;
  g <- read_game ;;
  let chr := characters (selector g) in
  forEach chr (fun c i =>
    ctx (drawImage (Resources_get (sprite c))
                   (Z.of_nat i * 101 + 50) (3 * 83 - 20))) ;;
  ctx (set_font "bold 20pt Calibri") ;;
  ctx (set_textAlign "center") ;;
  ctx (set_fillStyle "black") ;;
  ctx (fillText "Select Your Heroine!" 252 100) ;;
  ctx (set_font "bold 14pt Calibri") ;;
  ctx (fillText "Press Space or Enter to Begin" 252 160).

Definition render_win : M unit :=
  g <- read_game ;;
  ctx (drawImage (Resources_get (player_sprite (player g)))
                 (101 + 50) (3 * 83 - 20)) ;;
  ctx (drawImage (Resources_get "images/char-boy.png")
                 (202 + 50) (3 * 83 - 20)) ;;
  ctx (drawImage (Resources_get "images/Heart.png")
                 (151 + 50) (3 * 83 - 20)) ;;
  ctx (set_font "bold 20pt Calibri") ;;
  ctx (set_textAlign "center") ;;
  ctx (set_fillStyle "black") ;;
  ctx (fillText "You Win!" 252 100) ;;
  ctx (set_font "bold 14pt Calibri") ;;
  ctx (fillText "Press Space or Enter to Restart" 252 160).

Definition render_over : M unit :=
  ctx (set_font "bold 20pt Calibri") ;;
  ctx (set_textAlign "center") ;;
  ctx (set_fillStyle "black") ;;
  ctx (fillText "Game Over!" 252 100) ;;
  ctx (set_font "bold 14pt Calibri") ;;
  ctx (fillText "Press Space or Enter to Restart" 252 160).

(** The four calls that draw the background rectangle. *)
Definition render_background : M unit :=
  ctx beginPath ;;
  ctx (rect 0 0 505 606) ;;
  ctx (set_fillStyle "white") ;;
  ctx fill.

(** [switch (game.state)]: strict comparison against each case label in
    turn, no [default]. *)
Definition render_switch : M unit :=
  g <- read_game ;;
  if String.eqb (state g) "game" then render_game
  else if String.eqb (state g) "start" then render_start
  else if String.eqb (state g) "win" then render_win
  else if String.eqb (state g) "over" then render_over
  else ret tt.

Definition render : M unit :=
  render_background ;;
  render_switch ;;
  render_done.

Definition main : M unit :=
  now <- Date_now ;;
  last <- read_lastTime ;;
  let dt := PrimFloat.div
              (PrimFloat.sub (number_of_Z now) (number_of_lastTime last))
              1000%float in
  update dt ;;
  render ;;
  write_lastTime now ;;
  record (HostEv requestAnimationFrame_main).

Definition init : M unit :=
  t <- Date_now ;;
  write_lastTime t ;;
  record (HostEv (jquery_css "#game-area" "display" "block")) ;;
  record (HostEv game_resetGame) ;;
  g <- read_game ;;
  write_game (resetGame g) ;;
  main.

(** The canvas size set when the engine is created. *)
Definition canvas_width : Z := 505.
Definition canvas_height : Z := 606.

(** *** Reading the call record *)

Definition sprite_draws (evs : list Event) : list (Image * Z * Z) :=
  flat_map (fun ev => match ev with
                      | Ctx (drawImage img x y) => [(img, x, y)]
                      | _ => []
                      end) evs.

Definition text_draws (evs : list Event) : list (string * Z * Z) :=
  flat_map (fun ev => match ev with
                      | Ctx (fillText s x y) => [(s, x, y)]
                      | _ => []
                      end) evs.

Definition horizontal (d : Image * Z * Z) : Z := snd (fst d).

(** The calls a computation adds to the record when run from [w], whether
    it returns or throws. *)
Definition issued {A} (c : M A) (w : World) : list Event :=
  skipn (List.length (calls w)) (calls (final (c w))).

(** [lvl] is the index of an existing level. *)
Definition lvl_in_range (g : Game) : Prop :=
  0 <= lvl g < Z.of_nat (List.length (levels g)).

(** Successive samples of [Date.now()] never decrease. *)
Definition clock_never_set_back : Prop :=
  forall a b : nat, (a <= b)%nat -> wall_clock a <= wall_clock b.

(** The computation [c], run from [w], returns with [lastTime] holding a
    value no smaller than the next clock sample at [w] (the one [init] takes
    first), and with exactly [n] more completed calls of [update] and [n]
    more of [render]. *)
Definition frames_since (n : nat) (c : M unit) (w : World) : Prop :=
  exists w',
    c w = Ok tt w' /\
    (exists t, lastTime w' = Some t /\ wall_clock (clock_reads w) <= t) /\
    updates_run w' = (n + updates_run w)%nat /\
    renders_run w' = (n + renders_run w)%nat.

(** Three sprites, at the horizontal offsets 151, 202 and 253. *)
Definition sprites_at_151_202_253 (evs : list Event) : Prop :=
  let xs := map horizontal (sprite_draws evs) in
  List.length xs = 3%nat /\ In 151 xs /\ In 202 xs /\ In 253 xs.

(** The same world with [game.lvl] and [game.levels] replaced. *)
Definition with_levels (i : Z) (ls : list Level) (w : World) : World :=
  mkWorld (mkGame (state (game w)) i (lives (game w)) (player (game w)) ls
                  (selector (game w)))
          (lastTime w) (clock_reads w) (calls w)
          (updates_run w) (renders_run w).

(** The calls that clear the surface: a path holding the one rectangle that
    spans the canvas, filled white. *)
Definition background_clear : list Event :=
  [Ctx beginPath; Ctx (rect 0 0 canvas_width canvas_height);
   Ctx (set_fillStyle "white"); Ctx fill].

(** The world [w] after the calls [evs] have been added to its record. *)
Definition after_calls (evs : list Event) (w : World) : World :=
  mkWorld (game w) (lastTime w) (clock_reads w) (calls w ++ evs)
          (updates_run w) (renders_run w).

(** The world [w] after one more completed [render]. *)
Definition rendered (w : World) : World :=
  mkWorld (game w) (lastTime w) (clock_reads w) (calls w)
          (updates_run w) (S (renders_run w)).

(** The world [w] after one more completed [update]. *)
Definition updated (w : World) : World :=
  mkWorld (game w) (lastTime w) (clock_reads w) (calls w)
          (S (updates_run w)) (renders_run w).

(** The world [w] with its [game] object replaced. *)
Definition with_game (g : Game) (w : World) : World :=
  mkWorld g (lastTime w) (clock_reads w) (calls w)
          (updates_run w) (renders_run w).

(** The elements of an array paired with their indices, from [k] on. *)
Definition indexed_from {A} (k : nat) (a : list A) : list (nat * A) :=
  combine (seq k (List.length a)) a.

(** *** What each call is expected to record *)

(** The "game" screen, call by call, when level [l] is the current one. *)
Definition game_screen (g : Game) (l : Level) : list Event :=
  [Call (OnLevel l) "render" []] ++
  map (fun e => Call (OnEnemy e) "render" []) (enemies l) ++
  [Call (OnPlayer (player g)) "render" [];
   Ctx (set_font "bold 20pt Calibri");
   Ctx (set_textAlign "center");
   Ctx (set_fillStyle "black");
   Ctx (fillText ("Lives: " +' lives g) 125 37);
   Ctx (fillText ("Level: " +' lvl g +' 1) 375 37)].

(** The "start" screen, call by call. *)
Definition start_screen (g : Game) : list Event :=
  [Call (OnSelector (selector g)) "render" []] ++
  map (fun ic => Ctx (drawImage (Resources_get (sprite (snd ic)))
                                (Z.of_nat (fst ic) * 101 + 50) (3 * 83 - 20)))
      (indexed_from 0 (characters (selector g))) ++
  [Ctx (set_font "bold 20pt Calibri");
   Ctx (set_textAlign "center");
   Ctx (set_fillStyle "black");
   Ctx (fillText "Select Your Heroine!" 252 100);
   Ctx (set_font "bold 14pt Calibri");
   Ctx (fillText "Press Space or Enter to Begin" 252 160)].

(** The "win" screen, call by call. *)
Definition win_screen (g : Game) : list Event :=
  [Ctx (drawImage (Resources_get (player_sprite (player g))) 151 229);
   Ctx (drawImage (Resources_get "images/char-boy.png") 252 229);
   Ctx (drawImage (Resources_get "images/Heart.png") 201 229);
   Ctx (set_font "bold 20pt Calibri");
   Ctx (set_textAlign "center");
   Ctx (set_fillStyle "black");
   Ctx (fillText "You Win!" 252 100);
   Ctx (set_font "bold 14pt Calibri");
   Ctx (fillText "Press Space or Enter to Restart" 252 160)].

(** The "over" screen, call by call. *)
Definition over_screen : list Event :=
  [Ctx (set_font "bold 20pt Calibri");
   Ctx (set_textAlign "center");
   Ctx (set_fillStyle "black");
   Ctx (fillText "Game Over!" 252 100);
   Ctx (set_font "bold 14pt Calibri");
   Ctx (fillText "Press Space or Enter to Restart" 252 160)].

(** What [render] draws after the background in a state other than "game":
    a function of [state], [selector] and the player alone. *)
Definition screen_off_game (g : Game) : list Event :=
  if String.eqb (state g) "start" then start_screen g
  else if String.eqb (state g) "win" then win_screen g
  else if String.eqb (state g) "over" then over_screen
  else [].

(** The game after every enemy of the current level and then the player
    have been updated. *)
Definition entities_updated (dt : float) (l : Level) (g : Game) : Game :=
  player_updated
    (fold_left (enemy_updated (lvl g) dt)
               (seq 0 (List.length (enemies l))) g).

Definition update_calls (dt : float) (l : Level) (g : Game) : list Event :=
  map (fun e => Call (OnEnemy e) "update" [dt]) (enemies l) ++
  [Call (OnPlayer (player g)) "update" []].
End Engine.

(** ** The loop over several frames, and further readings of the record *)

(** The URLs handed to [Resources.load] when the engine is created. *)
Definition preloaded : list string :=
  ["images/stone-block.png";
   "images/water-block.png";
   "images/grass-block.png";
   "images/enemy-bug.png";
   "images/char-boy.png";
   "images/char-horn-girl.png";
   "images/char-cat-girl.png";
   "images/char-pink-girl.png";
   "images/char-princess-girl.png";
   "images/enemy-bug-flipped.png";
   "images/Selector.png";
   "images/Heart.png"]%string.

Section Frames.
Context `{Host}.
Local Open Scope engine_scope.

(** The [dt] that [main] computes when it starts in [w]:
    [(now - lastTime) / 1000.0] on doubles. *)
Definition tick_dt (w : World) : float :=
  PrimFloat.div
    (PrimFloat.sub (number_of_Z (wall_clock (clock_reads w)))
                   (number_of_lastTime (lastTime w)))
    1000%float.

(** [n] calls of [main] one after the other, as the page makes them when it
    honours each [requestAnimationFrame(main)]. *)
Fixpoint ticks (n : nat) : M unit :=
  match n with
  | O => ret tt
  | S n' => main ;; ticks n'
  end.

(** How many times [requestAnimationFrame(main)] occurs in a record. *)
Definition scheduled (evs : list Event) : nat :=
  List.length
    (filter (fun ev => match ev with
                       | HostEv requestAnimationFrame_main => true
                       | _ => false
                       end) evs).

(** The receivers of the method calls of a record, in order. *)
Definition receivers (evs : list Event) : list Receiver :=
  flat_map (fun ev => match ev with Call r _ _ => [r] | _ => [] end) evs.

Definition image_url (img : Image) : string :=
  match img with ResourceImage url => url end.

(** The text settings of the context as far as a record determines them: a
    setting is known from the last assignment to it, and unknown after any
    call whose body is not in engine.js. *)
Record Pen := mkPen {
  pen_font : option string;
  pen_align : option string;
  pen_fill : option string
}.

Definition unknown_pen : Pen := mkPen None None None.

Definition move_pen (p : Pen) (ev : Event) : Pen :=
  match ev with
  | Ctx (set_font v) => mkPen (Some v) (pen_align p) (pen_fill p)
  | Ctx (set_textAlign v) => mkPen (pen_font p) (Some v) (pen_fill p)
  | Ctx (set_fillStyle v) => mkPen (pen_font p) (pen_align p) (Some v)
  | Ctx _ => p
  | Call _ _ _ => unknown_pen
  | HostEv _ => unknown_pen
  end.

(** Each text of a record with the settings in force when it is drawn. *)
Fixpoint styled_texts (p : Pen) (evs : list Event) : list (string * Pen) :=
  match evs with
  | [] => []
  | ev :: rest =>
      match ev with
      | Ctx (fillText s _ _) => [(s, p)]
      | _ => []
      end ++ styled_texts (move_pen p ev) rest
  end.

(** What [render] records after the background, in any state: in state
    "game" with no level at [lvl], nothing, as the call throws there. *)
Definition screen_of (g : Game) : list Event :=
  if String.eqb (state g) "game" then
    match index (levels g) (lvl g) with
    | Some l => game_screen g l
    | None => []
    end
  else screen_off_game g.

(** Whether [game.levels[game.lvl]] is read without a throw: always outside
    state "game", where it is not read at all. *)
Definition level_readable (g : Game) : bool :=
  if String.eqb (state g) "game" then
    match index (levels g) (lvl g) with
    | Some _ => true
    | None => false
    end
  else true.

(** A text drawn in black, centred, in one of the two fonts of the engine. *)
Definition black_and_centred (tp : string * Pen) : Prop :=
  pen_fill (snd tp) = Some "black"%string /\
  pen_align (snd tp) = Some "center"%string /\
  (pen_font (snd tp) = Some "bold 20pt Calibri"%string \/
   pen_font (snd tp) = Some "bold 14pt Calibri"%string).

(** The record of one whole tick in a state other than "game". *)
Definition frame_off_game (g : Game) : list Event :=
  background_clear ++ screen_off_game g ++ [HostEv requestAnimationFrame_main].

(** A run adds to the record only calls that satisfy [P]. *)
Definition adds_only (P : Event -> Prop) (w w' : World) : Prop :=
  exists more, calls w' = calls w ++ more /\ Forall P more.

(** An [update] call as [updateEntities(dt)] makes them. *)
Definition is_update_call (dt : float) (ev : Event) : Prop :=
  (exists e, ev = Call (OnEnemy e) "update" [dt]) \/
  (exists p, ev = Call (OnPlayer p) "update" []).

(** A call as [render] makes them: on the context, or [render()] on an
    entity. *)
Definition is_render_call (ev : Event) : Prop :=
  (exists c, ev = Ctx c) \/ (exists r, ev = Call r "render" []).
End Frames.

(** ** A concrete game

    A small instance of the collaborators, on which the engine can be run:
    an enemy is a position and a speed and moves by [speed * dt]; the player
    is a sprite and a grid position; there are three levels. *)
Module Demo.
Definition enemy_step (e : float * float) (dt : float) : float * float :=
  (PrimFloat.add (fst e) (PrimFloat.mul (snd e) dt), snd e).

Definition player_step (p : string * (Z * Z)) : string * (Z * Z) :=
  (fst p, (Z.max 0 (Z.min 4 (fst (snd p))), Z.max 0 (Z.min 5 (snd (snd p))))).

Definition entities : Entities := {|
  Enemy := float * float;
  Player := string * (Z * Z);
  Scenery := list string;
  Cursor := nat;
  player_sprite := fst;
  enemy_update := enemy_step;
  player_update := player_step
|}.
#[local] Existing Instance entities.

Definition girl : Player := ("images/char-cat-girl.png"%string, (2, 7)).

Definition bugs (n : nat) : list Enemy :=
  map (fun k => (PrimFloat.of_uint63 (Uint63.of_Z (Z.of_nat k * 100)), 50%float))
      (seq 0 n).

Definition rows : list string :=
  ["images/water-block.png"; "images/stone-block.png";
   "images/grass-block.png"]%string.

Definition three_levels : list Level :=
  [mkLevel (bugs 1) rows; mkLevel (bugs 2) rows; mkLevel (bugs 3) rows].

Definition heroines : Selector :=
  mkSelector
    (map mkCharacter
       ["images/char-boy.png"; "images/char-cat-girl.png";
        "images/char-horn-girl.png"; "images/char-pink-girl.png";
        "images/char-princess-girl.png"]%string)
    0%nat.

Definition game_in (st : string) (l n : Z) : Game :=
  mkGame st l n girl three_levels heroines.

(** [game.resetGame()]: back to the selection screen with three lives. *)
Definition host (clock : nat -> Z) : Host := {|
  resetGame := fun g => mkGame "start" 0 3 (player g) (levels g) (selector g);
  wall_clock := clock
|}.

(** A clock that advances 16 ms between samples, and one that is set back
    by the system between the first sample and the second. *)
Definition steady (k : nat) : Z := 1700000000000 + 16 * Z.of_nat k.
Definition set_back (k : nat) : Z := 1700000000000 - 5000 * Z.of_nat k.

Definition world_in (st : string) (l n : Z) : World :=
  mkWorld (game_in st l n) None 0 [] 0 0.
End Demo.


(** * Properties *)

(** ** Running the monad *)

Section Running.
Context `{Entities}.
Local Open Scope engine_scope.

Lemma bind_Ok {A B} (c : M A) (k : A -> M B) w a w' :
  c w = Ok a w' -> bind c k w = k a w'.
Proof. intros E. unfold bind. now rewrite E. Qed.

Lemma bind_Throw {A B} (c : M A) (k : A -> M B) w e w' :
  c w = Throw e w' -> bind c k w = Throw e w'.
Proof. intros E. unfold bind. now rewrite E. Qed.

Lemma issued_app {A} (c : M A) w more :
  calls (final (c w)) = calls w ++ more -> issued c w = more.
Proof.
  intros E. unfold issued. rewrite E.
  rewrite skipn_app, skipn_all, Nat.sub_diag. reflexivity.
Qed.

Section Respect.
Variable R : World -> World -> Prop.
Hypothesis R_refl : forall w, R w w.
Hypothesis R_trans : forall a b c, R a b -> R b c -> R a c.

Lemma respects_ret {A} (a : A) : respects R (ret a).
Proof. intros w. apply R_refl. Qed.

Lemma respects_throw {A} e : respects R (@throw _ A e).
Proof. intros w. apply R_refl. Qed.

Lemma respects_bind {A B} (c : M A) (k : A -> M B) :
  respects R c -> (forall a, respects R (k a)) -> respects R (bind c k).
Proof.
  intros Hc Hk w. unfold bind. specialize (Hc w).
  destruct (c w) as [a w' | e w']; simpl in *.
  - eapply R_trans; [exact Hc | apply Hk].
  - exact Hc.
Qed.

Lemma respects_forEach_from {A} (f : A -> nat -> M unit) :
  (forall x k, respects R (f x k)) ->
  forall a k, respects R (forEach_from k a f).
Proof.
  intros Hf a. induction a as [| x rest IH]; intros k; simpl.
  - apply respects_ret.
  - apply respects_bind; [apply Hf | intros _; apply IH].
Qed.
End Respect.

Lemma same_game_refl w : same_game w w.
Proof. reflexivity. Qed.

Lemma same_game_trans a b c : same_game a b -> same_game b c -> same_game a c.
Proof. unfold same_game. congruence. Qed.

Lemma calls_extended_refl w : calls_extended w w.
Proof. exists []. now rewrite app_nil_r. Qed.

Lemma calls_extended_trans a b c :
  calls_extended a b -> calls_extended b c -> calls_extended a c.
Proof.
  intros [m1 E1] [m2 E2]. exists (m1 ++ m2).
  now rewrite E2, E1, app_assoc.
Qed.
End Running.

(** ** What [render] touches: the call record and nothing of [game] *)

Section RenderFrame.
Context `{Entities}.
Local Open Scope engine_scope.

Ltac frame_step refl trans :=
  match goal with
  | |- respects _ (bind _ _) =>
      apply respects_bind; [exact trans | | intros ?]
  | |- respects _ (if ?b then _ else _) => destruct b
  | |- respects _ (match ?o with Some _ => _ | None => _ end) => destruct o
  | |- respects _ (ret _) => apply respects_ret; exact refl
  | |- respects _ (throw _) => apply respects_throw; exact refl
  | |- respects _ (forEach _ _) =>
      apply respects_forEach_from; [exact refl | exact trans | intros ? ?]
  end.

Lemma record_same_game ev : respects same_game (record ev).
Proof. intros w. reflexivity. Qed.

Lemma read_game_same_game : respects same_game read_game.
Proof. intros w. reflexivity. Qed.

Lemma render_done_same_game : respects same_game render_done.
Proof. intros w. reflexivity. Qed.

Lemma record_extends ev : respects calls_extended (record ev).
Proof. intros w. exists [ev]. reflexivity. Qed.

Lemma read_game_extends : respects calls_extended read_game.
Proof. intros w. apply calls_extended_refl. Qed.

Lemma render_done_extends : respects calls_extended render_done.
Proof. intros w. exists []. simpl. now rewrite app_nil_r. Qed.

Ltac frame refl trans leaf :=
  repeat first [ frame_step refl trans | leaf ].

Lemma render_switch_same_game : respects same_game render_switch.
Proof.
  unfold render_switch, render_game, render_start, render_win, render_over,
    current_level, call_render, ctx.
  frame same_game_refl same_game_trans
    ltac:(first [ apply record_same_game | apply read_game_same_game ]).
Qed.

Lemma render_same_game : respects same_game render.
Proof.
  unfold render, render_background, ctx.
  frame same_game_refl same_game_trans
    ltac:(first [ apply record_same_game | apply render_switch_same_game
                | apply render_done_same_game ]).
Qed.

Lemma render_switch_extends : respects calls_extended render_switch.
Proof.
  unfold render_switch, render_game, render_start, render_win, render_over,
    current_level, call_render, ctx.
  frame calls_extended_refl calls_extended_trans
    ltac:(first [ apply record_extends | apply read_game_extends ]).
Qed.

(** The background rectangle: four calls, always completed. *)
Lemma render_background_run w :
  render_background w =
  Ok tt (mkWorld (game w) (lastTime w) (clock_reads w)
           (calls w ++ [Ctx beginPath; Ctx (rect 0 0 505 606);
                        Ctx (set_fillStyle "white"); Ctx fill])
           (updates_run w) (renders_run w)).
Proof.
  unfold render_background, ctx, record, bind. simpl.
  now rewrite <- !app_assoc.
Qed.
End RenderFrame.

(** ** The renderer, state by state *)

Section Render.
Context `{Entities}.
Local Open Scope engine_scope.

(** C6. In every world, whatever [game.state] holds (one of the four known
    values or anything else) and whether the call returns or throws, the
    calls [render] adds to the record start with the background clear: a
    white fill of the rectangle from (0,0) of width 505 and height 606, which
    is the whole canvas.  Everything else [render] draws comes after it. *)
Theorem render_begins_with_background_clear :
  forall w : World,
    exists rest,
      calls (final (render w)) = calls w ++ background_clear ++ rest.
Proof.
  intros w. unfold render.
  rewrite (bind_Ok _ _ _ _ _ (render_background_run w)).
  assert (Hrest : respects calls_extended (render_switch ;; render_done)).
  { apply respects_bind.
    - exact calls_extended_trans.
    - apply render_switch_extends.
    - intros _. apply render_done_extends. }
  destruct (Hrest (mkWorld (game w) (lastTime w) (clock_reads w)
             (calls w ++ [Ctx beginPath; Ctx (rect 0 0 505 606);
                          Ctx (set_fillStyle "white"); Ctx fill])
             (updates_run w) (renders_run w))) as [more E].
  exists more. rewrite E. simpl calls.
  now rewrite <- app_assoc.
Qed.

(** C9. [render] writes no field of [game]: after one call, returned or
    thrown, [state], [lvl], [lives], [player], [levels] and [selector] are
    what they were before; in particular [state] has not moved. *)
Theorem render_leaves_game_unchanged :
  forall w : World,
    let g := game w in
    let g' := game (final (render w)) in
    state g' = state g /\ lvl g' = lvl g /\ lives g' = lives g /\
    player g' = player g /\ levels g' = levels g /\ selector g' = selector g.
Proof.
  intros w g g'. subst g g'.
  rewrite (render_same_game w).
  repeat split.
Qed.

Lemma eqb_false_of_neq s t : s <> t -> String.eqb s t = false.
Proof. intros N. now apply String.eqb_neq. Qed.

(** C8. When [game.state] is none of "start", "game", "win" and "over", the
    switch matches no case: [render] returns having added the four calls of
    the background clear to the record and nothing else. *)
Theorem render_unknown_state_draws_background_only :
  forall w : World,
    state (game w) <> "game"%string ->
    state (game w) <> "start"%string ->
    state (game w) <> "win"%string ->
    state (game w) <> "over"%string ->
    render w =
    Ok tt (mkWorld (game w) (lastTime w) (clock_reads w)
             (calls w ++ background_clear)
             (updates_run w) (S (renders_run w)))
    /\ issued render w = background_clear.
Proof.
  intros w Ng Ns Nw No.
  assert (E : render w =
    Ok tt (mkWorld (game w) (lastTime w) (clock_reads w)
             (calls w ++ background_clear)
             (updates_run w) (S (renders_run w)))).
  { unfold render.
    rewrite (bind_Ok _ _ _ _ _ (render_background_run w)).
    unfold render_switch, bind, read_game. simpl.
    rewrite (eqb_false_of_neq _ _ Ng), (eqb_false_of_neq _ _ Ns),
      (eqb_false_of_neq _ _ Nw), (eqb_false_of_neq _ _ No).
    reflexivity. }
  split; [exact E |].
  apply issued_app. now rewrite E.
Qed.
End Render.

Section Screens.
Context `{Entities}.
Local Open Scope engine_scope.

(** A loop whose body only records one call per element. *)
Lemma forEach_from_record {A} (ev : A -> nat -> Event) (a : list A) :
  forall k w,
    forEach_from k a (fun x i => record (ev x i)) w =
    Ok tt (after_calls (map (fun ix => ev (snd ix) (fst ix)) (indexed_from k a)) w).
Proof.
  induction a as [| x rest IH]; intros k w; simpl.
  - unfold ret, after_calls, indexed_from. simpl. rewrite app_nil_r.
    now destruct w.
  - unfold bind at 1. unfold record at 1. rewrite IH.
    unfold after_calls, indexed_from. simpl.
    now rewrite <- app_assoc.
Qed.

Lemma after_calls_app evs evs' w :
  after_calls evs' (after_calls evs w) = after_calls (evs ++ evs') w.
Proof. unfold after_calls. simpl. now rewrite app_assoc. Qed.

Lemma record_run ev w : record ev w = Ok tt (after_calls [ev] w).
Proof. reflexivity. Qed.

Lemma run_read_game {B} (k : Game -> M B) w :
  bind read_game k w = k (game w) w.
Proof. reflexivity. Qed.

Lemma run_record {B} ev (k : unit -> M B) w :
  bind (record ev) k w = k tt (after_calls [ev] w).
Proof. reflexivity. Qed.

Lemma run_forEach_record {A B} (ev : A -> nat -> Event) a k0
      (k : unit -> M B) w :
  bind (forEach_from k0 a (fun x i => record (ev x i))) k w =
  k tt (after_calls (map (fun ix => ev (snd ix) (fst ix)) (indexed_from k0 a)) w).
Proof. apply bind_Ok, forEach_from_record. Qed.

Lemma run_current_level {B} (k : Level -> M B) w l :
  index (levels (game w)) (lvl (game w)) = Some l ->
  bind current_level k w = k l w.
Proof.
  intros E. unfold current_level, bind, read_game. now rewrite E.
Qed.

Lemma render_of_switch w w' :
  render_switch (after_calls background_clear w) = Ok tt w' ->
  render w = Ok tt (rendered w').
Proof.
  intros E. unfold render.
  rewrite (bind_Ok _ _ _ _ _ (render_background_run w)).
  change (mkWorld (game w) (lastTime w) (clock_reads w)
            (calls w ++ [Ctx beginPath; Ctx (rect 0 0 505 606);
                         Ctx (set_fillStyle "white"); Ctx fill])
            (updates_run w) (renders_run w))
    with (after_calls background_clear w).
  now rewrite (bind_Ok _ _ _ _ _ E).
Qed.

Lemma render_switch_case w :
  render_switch w =
  if String.eqb (state (game w)) "game" then render_game w
  else if String.eqb (state (game w)) "start" then render_start w
  else if String.eqb (state (game w)) "win" then render_win w
  else if String.eqb (state (game w)) "over" then render_over w
  else Ok tt w.
Proof.
  unfold render_switch. rewrite run_read_game.
  repeat match goal with |- context [String.eqb ?a ?b] =>
    destruct (String.eqb a b) end; reflexivity.
Qed.

Ltac run_body :=
  repeat first
    [ rewrite run_read_game
    | rewrite run_record
    | rewrite run_forEach_record
    | rewrite record_run
    | rewrite after_calls_app ];
  cbn [game after_calls].

Lemma text_draws_app a b : text_draws (a ++ b) = text_draws a ++ text_draws b.
Proof. apply flat_map_app. Qed.

Lemma sprite_draws_app a b :
  sprite_draws (a ++ b) = sprite_draws a ++ sprite_draws b.
Proof. apply flat_map_app. Qed.

Lemma text_draws_of_calls {A} (f : A -> Receiver) m (xs : list A) :
  text_draws (map (fun x => Call (f x) m []) xs) = [].
Proof. induction xs as [| x xs IH]; simpl; auto. Qed.

Lemma render_win_body w :
  render_win w = Ok tt (after_calls (win_screen (game w)) w).
Proof. unfold render_win, ctx. run_body. reflexivity. Qed.

Lemma render_win_run w :
  state (game w) = "win"%string ->
  render w = Ok tt (rendered (after_calls (background_clear ++ win_screen (game w)) w)).
Proof.
  intros St. apply render_of_switch.
  rewrite render_switch_case. cbn [game after_calls]. rewrite St.
  cbn [String.eqb Ascii.eqb Bool.eqb].
  rewrite render_win_body, after_calls_app. reflexivity.
Qed.

(** C2 (as the code has it). In state "win" one call of [render] draws
    exactly three sprites, in this order: the player's sprite at horizontal
    offset 151 (= 101 + 50), the boy at 252 (= 202 + 50) and the heart at
    201 (= 151 + 50), all at vertical offset 229; two worlds in state "win"
    whose players have the same sprite identifier get the same three draws. *)
Theorem render_win_draws_three_sprites :
  forall w : World,
    state (game w) = "win"%string ->
    sprite_draws (issued render w) =
      [(Resources_get (player_sprite (player (game w))), 151, 229);
       (Resources_get "images/char-boy.png", 252, 229);
       (Resources_get "images/Heart.png", 201, 229)]
    /\ map horizontal (sprite_draws (issued render w)) = [151; 252; 201]
    /\ forall w' : World,
         state (game w') = "win"%string ->
         player_sprite (player (game w')) = player_sprite (player (game w)) ->
         sprite_draws (issued render w') = sprite_draws (issued render w).
Proof.
  assert (D : forall w : World, state (game w) = "win"%string ->
    sprite_draws (issued render w) =
      [(Resources_get (player_sprite (player (game w))), 151, 229);
       (Resources_get "images/char-boy.png", 252, 229);
       (Resources_get "images/Heart.png", 201, 229)]).
  { intros w St.
    rewrite (issued_app render w (background_clear ++ win_screen (game w))).
    - reflexivity.
    - now rewrite (render_win_run w St). }
  intros w St. split; [now apply D |]. split.
  - now rewrite (D w St).
  - intros w' St' Sp. rewrite (D w St), (D w' St'). now rewrite Sp.
Qed.

Lemma render_start_body w :
  render_start w = Ok tt (after_calls (start_screen (game w)) w).
Proof.
  unfold render_start, call_render, forEach, ctx. run_body.
  reflexivity.
Qed.

Lemma render_start_run w :
  state (game w) = "start"%string ->
  render w =
  Ok tt (rendered (after_calls (background_clear ++ start_screen (game w)) w)).
Proof.
  intros St. apply render_of_switch.
  rewrite render_switch_case. cbn [game after_calls]. rewrite St.
  cbn [String.eqb Ascii.eqb Bool.eqb].
  rewrite render_start_body, after_calls_app. reflexivity.
Qed.

(** C7. In state "start" with five entries in [game.selector.characters],
    one call of [render] issues exactly five [drawImage] calls; the [i]-th
    (for [i] from 0 to 4) draws the sprite of the [i]-th entry at horizontal
    offset [i * 101 + 50] and vertical offset [3 * 83 - 20]. *)
Theorem render_start_draws_five_sprites :
  forall w : World,
    state (game w) = "start"%string ->
    List.length (characters (selector (game w))) = 5%nat ->
    let draws := sprite_draws (issued render w) in
    List.length draws = 5%nat /\
    forall i : nat, (i < 5)%nat ->
      exists c,
        nth_error (characters (selector (game w))) i = Some c /\
        nth_error draws i =
          Some (Resources_get (sprite c), Z.of_nat i * 101 + 50, 3 * 83 - 20).
Proof.
  intros w St Len draws. subst draws.
  rewrite (issued_app render w (background_clear ++ start_screen (game w)))
    by now rewrite (render_start_run w St).
  unfold start_screen.
  destruct (characters (selector (game w)))
    as [| c0 [| c1 [| c2 [| c3 [| c4 [| c5 rest]]]]]]; try discriminate Len.
  split; [reflexivity |].
  intros i Hi.
  destruct i as [| [| [| [| [| i]]]]]; try lia;
    eexists; split; reflexivity.
Qed.

Lemma map_indexed_from {A B} (f : A -> B) (a : list A) k :
  map (fun ix => f (snd ix)) (indexed_from k a) = map f a.
Proof.
  revert k. induction a as [| x rest IH]; intros k; [reflexivity |].
  unfold indexed_from in *. simpl. now rewrite IH.
Qed.

Lemma render_game_body w l :
  index (levels (game w)) (lvl (game w)) = Some l ->
  render_game w = Ok tt (after_calls (game_screen (game w) l) w).
Proof.
  intros E. unfold render_game, call_render, forEach, ctx.
  rewrite (run_current_level _ w l E). rewrite run_record.
  rewrite (run_current_level _ (after_calls [Call (OnLevel l) "render" []] w) l E).
  run_body.
  rewrite (map_indexed_from (fun e => Call (OnEnemy e) "render" [])).
  reflexivity.
Qed.

Lemma render_game_run w l :
  state (game w) = "game"%string ->
  index (levels (game w)) (lvl (game w)) = Some l ->
  render w =
  Ok tt (rendered (after_calls (background_clear ++ game_screen (game w) l) w)).
Proof.
  intros St E. apply render_of_switch.
  rewrite render_switch_case.
  change (state (game (after_calls background_clear w)))
    with (state (game w)).
  rewrite St. cbn [String.eqb Ascii.eqb Bool.eqb].
  rewrite (render_game_body (after_calls background_clear w) l E).
  now rewrite after_calls_app.
Qed.

Lemma render_game_throws w :
  state (game w) = "game"%string ->
  index (levels (game w)) (lvl (game w)) = None ->
  render w = Throw (TypeError "game.levels[game.lvl] is undefined")
                   (after_calls background_clear w).
Proof.
  intros St E. unfold render.
  rewrite (bind_Ok _ _ _ _ _ (render_background_run w)).
  apply bind_Throw. rewrite render_switch_case. cbn [game]. rewrite St.
  cbn [String.eqb Ascii.eqb Bool.eqb].
  unfold render_game, current_level, bind, read_game. cbn [game].
  now rewrite E.
Qed.

Lemma render_over_body w : render_over w = Ok tt (after_calls over_screen w).
Proof. unfold render_over, ctx. run_body. reflexivity. Qed.

Lemma render_off_game_run w :
  state (game w) <> "game"%string ->
  render w =
  Ok tt (rendered (after_calls (background_clear ++ screen_off_game (game w)) w)).
Proof.
  intros N. apply render_of_switch. rewrite render_switch_case.
  change (state (game (after_calls background_clear w)))
    with (state (game w)).
  rewrite (eqb_false_of_neq _ _ N). unfold screen_off_game.
  destruct (String.eqb (state (game w)) "start").
  { now rewrite render_start_body, after_calls_app. }
  destruct (String.eqb (state (game w)) "win").
  { now rewrite render_win_body, after_calls_app. }
  destruct (String.eqb (state (game w)) "over").
  { now rewrite render_over_body, after_calls_app. }
  now rewrite app_nil_r.
Qed.

(** The texts one call of [render] draws in state "game". *)
Lemma render_game_texts w l :
  state (game w) = "game"%string ->
  index (levels (game w)) (lvl (game w)) = Some l ->
  text_draws (issued render w) =
    [("Lives: " +' lives (game w), 125, 37);
     ("Level: " +' lvl (game w) +' 1, 375, 37)].
Proof.
  intros St E.
  rewrite (issued_app render w (background_clear ++ game_screen (game w) l))
    by now rewrite (render_game_run w l St E).
  unfold game_screen. rewrite !text_draws_app.
  rewrite (text_draws_of_calls OnEnemy). reflexivity.
Qed.
End Screens.

(** ** Updating the entities *)

Section Update.
Context `{Entities}.
Local Open Scope engine_scope.

Lemma replace_nth_length {A} (f : A -> A) (a : list A) :
  forall k, List.length (replace_nth k f a) = List.length a.
Proof.
  induction a as [| x rest IH]; intros [| k]; simpl; auto.
Qed.

Lemma index_Some_iff {A} (a : list A) (i : Z) :
  (exists x, index a i = Some x) <-> 0 <= i < Z.of_nat (List.length a).
Proof.
  unfold index. destruct (Z.ltb_spec i 0) as [Neg | Pos].
  - split; [intros [x E]; discriminate | lia].
  - split.
    + intros [x E].
      assert (L : (Z.to_nat i < List.length a)%nat)
        by (apply nth_error_Some; congruence).
      lia.
    + intros [_ Hi].
      destruct (nth_error a (Z.to_nat i)) as [x |] eqn:E; [now exists x |].
      apply nth_error_None in E. lia.
Qed.

Lemma index_None_iff {A} (a : list A) (i : Z) :
  index a i = None <-> ~ 0 <= i < Z.of_nat (List.length a).
Proof.
  rewrite <- index_Some_iff. split.
  - intros E [x E']. congruence.
  - intros N. destruct (index a i) as [x |] eqn:E; [| reflexivity].
    exfalso. apply N. now exists x.
Qed.

(** What a run of enemy updates leaves alone. *)
Lemma enemies_updated_frame i dt (ks : list nat) :
  forall g,
    let g' := fold_left (enemy_updated i dt) ks g in
    state g' = state g /\ lvl g' = lvl g /\ lives g' = lives g /\
    player g' = player g /\ selector g' = selector g /\
    List.length (levels g') = List.length (levels g).
Proof.
  induction ks as [| k ks IH]; intros g; simpl.
  - repeat split.
  - destruct (IH (enemy_updated i dt g k)) as (S1 & S2 & S3 & S4 & S5 & S6).
    simpl in *. rewrite replace_nth_length in S6.
    repeat split; assumption.
Qed.

Lemma replace_nth_ext {A} (f g : A -> A) (a : list A) :
  (forall x, f x = g x) -> forall k, replace_nth k f a = replace_nth k g a.
Proof.
  intros Ext. induction a as [| x rest IH]; intros [| k]; simpl;
    try reflexivity.
  - now rewrite Ext.
  - now rewrite IH.
Qed.

Lemma replace_nth_twice {A} (f g : A -> A) (a : list A) :
  forall k,
    replace_nth k f (replace_nth k g a) = replace_nth k (fun x => f (g x)) a.
Proof.
  induction a as [| x rest IH]; intros [| k]; simpl; try reflexivity.
  now rewrite IH.
Qed.

Lemma replace_nth_fixed {A} (f : A -> A) (a : list A) :
  forall k x, nth_error a k = Some x -> f x = x -> replace_nth k f a = a.
Proof.
  induction a as [| y rest IH]; intros [| k] x E Fx; simpl in *;
    try discriminate.
  - injection E as ->. now rewrite Fx.
  - now rewrite (IH k x E Fx).
Qed.

Lemma nth_error_replace_nth {A} (f : A -> A) (a : list A) :
  forall k x,
    nth_error a k = Some x -> nth_error (replace_nth k f a) k = Some (f x).
Proof.
  induction a as [| y rest IH]; intros [| k] x E; simpl in *;
    try discriminate.
  - now injection E as ->.
  - now apply IH.
Qed.

Lemma replace_nth_middle {A} (f : A -> A) (pre : list A) x rest :
  replace_nth (List.length pre) f (pre ++ x :: rest) = pre ++ f x :: rest.
Proof.
  induction pre as [| y pre IH]; simpl; [reflexivity | now rewrite IH].
Qed.

(** The enemy updates from index [length pre] on, when the level read at
    [i] has the enemies [pre ++ rest]: every enemy of [rest] is replaced by
    its updated self, once; nothing else in [levels] moves. *)
Lemma enemies_updated_levels i dt :
  forall (rest pre : list Enemy) (g : Game) (l : Level),
    nth_error (levels g) (Z.to_nat i) = Some l ->
    enemies l = pre ++ rest ->
    levels (fold_left (enemy_updated i dt)
                      (seq (List.length pre) (List.length rest)) g) =
    replace_nth (Z.to_nat i)
      (fun l0 => mkLevel (pre ++ map (fun e => enemy_update e dt) rest)
                         (scenery l0))
      (levels g).
Proof.
  induction rest as [| x rest IH]; intros pre g l E En; simpl.
  - symmetry. apply (replace_nth_fixed _ _ _ l E).
    rewrite <- En. now destruct l.
  - set (g1 := enemy_updated i dt g (List.length pre)).
    assert (E1 : nth_error (levels g1) (Z.to_nat i) =
                 Some (mkLevel (replace_nth (List.length pre)
                                  (fun e => enemy_update e dt) (enemies l))
                               (scenery l))).
    { exact (nth_error_replace_nth
               (fun l0 => mkLevel (replace_nth (List.length pre)
                                     (fun e => enemy_update e dt) (enemies l0))
                                  (scenery l0))
               _ _ l E). }
    specialize (IH (pre ++ [enemy_update x dt]) g1 _ E1).
    rewrite length_app, Nat.add_1_r in IH. rewrite IH.
    + unfold g1, enemy_updated. simpl levels.
      rewrite replace_nth_twice. apply replace_nth_ext.
      intros l0. simpl. now rewrite <- app_assoc.
    + simpl. rewrite En, replace_nth_middle. now rewrite <- app_assoc.
Qed.

Lemma call_enemy_update_run i dt e k w :
  call_enemy_update i dt e k w =
  Ok tt (with_game (enemy_updated i dt (game w) k)
           (after_calls [Call (OnEnemy e) "update" [dt]] w)).
Proof. reflexivity. Qed.

(** The loop over the enemies: one recorded call per enemy, in array order,
    each with the same [dt]; the loop always runs to its end. *)
Lemma forEach_enemy_update_run i dt (es : list Enemy) :
  forall k w,
    forEach_from k es (call_enemy_update i dt) w =
    Ok tt (with_game
             (fold_left (enemy_updated i dt) (seq k (List.length es)) (game w))
             (after_calls (map (fun e => Call (OnEnemy e) "update" [dt]) es) w)).
Proof.
  induction es as [| e rest IH]; intros k w; simpl.
  - unfold ret, with_game, after_calls. simpl. rewrite app_nil_r.
    now destruct w.
  - rewrite (bind_Ok _ _ _ _ _ (call_enemy_update_run i dt e k w)).
    rewrite IH. unfold with_game, after_calls. simpl.
    now rewrite <- app_assoc.
Qed.

Lemma updateEntities_game_run dt w l :
  state (game w) = "game"%string ->
  index (levels (game w)) (lvl (game w)) = Some l ->
  updateEntities dt w =
  Ok tt (with_game (entities_updated dt l (game w))
           (after_calls (update_calls dt l (game w)) w)).
Proof.
  intros St E. unfold updateEntities.
  unfold bind at 1, read_game at 1. rewrite St.
  cbn [String.eqb Ascii.eqb Bool.eqb].
  unfold bind at 1, current_level at 1, bind at 1, read_game at 1.
  rewrite E. unfold ret at 1. unfold forEach.
  rewrite (bind_Ok _ _ _ _ _ (forEach_enemy_update_run _ dt (enemies l) 0%nat w)).
  unfold call_player_update, bind, read_game, record, write_game.
  cbn [game with_game after_calls calls lastTime clock_reads updates_run
       renders_run].
  destruct (enemies_updated_frame (lvl (game w)) dt
              (seq 0 (List.length (enemies l))) (game w))
    as (_ & _ & _ & P & _).
  cbv zeta in P. rewrite P.
  unfold with_game, after_calls, entities_updated, update_calls. simpl.
  now rewrite <- app_assoc.
Qed.

(** The [game] object one call of [update(dt)] leaves in state "game":
    every enemy of the current level has been updated once with [dt], the
    player has been updated once, and nothing else has moved. *)
Lemma update_moves_each_entity_once dt w l :
  state (game w) = "game"%string ->
  index (levels (game w)) (lvl (game w)) = Some l ->
  game (final (update dt w)) =
  mkGame (state (game w)) (lvl (game w)) (lives (game w))
         (player_update (player (game w)))
         (replace_nth (Z.to_nat (lvl (game w)))
            (fun l0 => mkLevel (map (fun e => enemy_update e dt) (enemies l))
                               (scenery l0))
            (levels (game w)))
         (selector (game w)).
Proof.
  intros St E. unfold update.
  rewrite (bind_Ok _ _ _ _ _ (updateEntities_game_run dt w l St E)).
  simpl. unfold entities_updated, player_updated.
  destruct (enemies_updated_frame (lvl (game w)) dt
              (seq 0 (List.length (enemies l))) (game w))
    as (S1 & S2 & S3 & S4 & S5 & _).
  cbv zeta in *. rewrite S1, S2, S3, S4, S5. f_equal.
  apply (enemies_updated_levels (lvl (game w)) dt (enemies l) [] (game w) l).
  - unfold index in E. destruct (lvl (game w) <? 0); [discriminate | exact E].
  - reflexivity.
Qed.

Lemma updateEntities_game_throws dt w :
  state (game w) = "game"%string ->
  index (levels (game w)) (lvl (game w)) = None ->
  updateEntities dt w =
  Throw (TypeError "game.levels[game.lvl] is undefined") w.
Proof.
  intros St E. unfold updateEntities.
  unfold bind at 1, read_game at 1. rewrite St.
  cbn [String.eqb Ascii.eqb Bool.eqb].
  unfold bind at 1, current_level at 1, bind at 1, read_game at 1.
  now rewrite E.
Qed.

Lemma updateEntities_idle dt w :
  state (game w) <> "game"%string -> updateEntities dt w = Ok tt w.
Proof.
  intros N. unfold updateEntities, bind, read_game.
  now rewrite (eqb_false_of_neq _ _ N).
Qed.
End Update.

Section StatusText.
Context `{Entities}.

(** C1 (what the code draws). In state "game" with [lvl = 2], [lives = 3]
    and an existing level 2, one call of [render] draws two texts: "Lives: 3"
    at (125, 37) and, at (375, 37), "Level: 21".  The level text is the
    string "Level: 2" with the number 1 appended, not the number [lvl + 1]:
    ["Level: " + game.lvl + 1] adds from the left. *)
Theorem render_game_status_text_at_lvl2 :
  forall (w : World) (l : Level),
    state (game w) = "game"%string ->
    lvl (game w) = 2 ->
    lives (game w) = 3 ->
    index (levels (game w)) 2 = Some l ->
    text_draws (issued render w) =
      [("Lives: 3"%string, 125, 37); ("Level: 21"%string, 375, 37)].
Proof.
  intros w l St Lv Li E.
  rewrite <- Lv in E.
  rewrite (render_game_texts w l St E), Lv, Li.
  reflexivity.
Qed.
End StatusText.

Section UpdateClaims.
Context `{Entities}.

(** C3. In state "game", with [lvl] the index of a level [l], one call of
    [update(dt)] returns, and the calls it makes are exactly: [update] on
    each enemy of [l.enemies], once each, in array order, every one with the
    single argument [dt]; then [update] on the player, once, with no
    argument.  The same holds of [updateEntities(dt)], which does the work. *)
Theorem update_calls_each_enemy_then_player :
  forall (dt : float) (w : World) (l : Level),
    state (game w) = "game"%string ->
    index (levels (game w)) (lvl (game w)) = Some l ->
    completed (update dt w) = true /\
    issued (update dt) w =
      map (fun e => Call (OnEnemy e) "update" [dt]) (enemies l) ++
      [Call (OnPlayer (player (game w))) "update" []] /\
    issued (updateEntities dt) w = issued (update dt) w.
Proof.
  intros dt w l St E.
  pose proof (updateEntities_game_run dt w l St E) as R.
  assert (U : update dt w =
    Ok tt (updated (with_game (entities_updated dt l (game w))
                      (after_calls (update_calls dt l (game w)) w)))).
  { unfold update. now rewrite (bind_Ok _ _ _ _ _ R). }
  assert (I : issued (update dt) w = update_calls dt l (game w)).
  { apply issued_app. now rewrite U. }
  split; [now rewrite U |]. split; [exact I |].
  rewrite I. apply issued_app. now rewrite R.
Qed.

(** C4. In any state other than "game", [updateEntities(dt)] returns the
    world exactly as it found it, for every [dt] (non-negative or not):
    no enemy and no player is touched, no method is called.  [update(dt)]
    likewise leaves [game] as it was and records no call. *)
Theorem update_outside_game_is_noop :
  forall (dt : float) (w : World),
    state (game w) <> "game"%string ->
    updateEntities dt w = Ok tt w /\
    game (final (update dt w)) = game w /\
    issued (update dt) w = [].
Proof.
  intros dt w N.
  pose proof (updateEntities_idle dt w N) as R.
  assert (U : update dt w = Ok tt (updated w)).
  { unfold update. now rewrite (bind_Ok _ _ _ _ _ R). }
  split; [exact R |]. split; [now rewrite U |].
  apply issued_app. rewrite U. simpl. now rewrite app_nil_r.
Qed.

(** C10. In state "game" both [updateEntities(dt)] and [render()] read
    [game.levels[game.lvl]]: when [0 <= lvl < levels.length] the read finds a
    level and both calls return; when [lvl] is outside that range both throw
    the TypeError of a property read on [undefined].  In any other state
    neither call depends on [lvl] or [levels]: with any index and any level
    array put in their place, [updateEntities] returns the world unchanged
    and [render] returns having recorded the same calls. *)
Theorem level_index_read_only_in_game_state :
  forall (dt : float) (w : World),
    (state (game w) = "game"%string ->
       (lvl_in_range (game w) ->
          exists l, index (levels (game w)) (lvl (game w)) = Some l /\
                    completed (updateEntities dt w) = true /\
                    completed (render w) = true) /\
       (~ lvl_in_range (game w) ->
          index (levels (game w)) (lvl (game w)) = None /\
          completed (updateEntities dt w) = false /\
          completed (render w) = false)) /\
    (state (game w) <> "game"%string ->
       forall (i : Z) (ls : list Level),
         updateEntities dt (with_levels i ls w) = Ok tt (with_levels i ls w) /\
         completed (render (with_levels i ls w)) = true /\
         issued render (with_levels i ls w) = issued render w).
Proof.
  intros dt w. split.
  - intros St. split.
    + intros In. apply index_Some_iff in In. destruct In as [l E].
      exists l. split; [exact E |]. split.
      * now rewrite (updateEntities_game_run dt w l St E).
      * now rewrite (render_game_run w l St E).
    + intros Out. apply index_None_iff in Out. split; [exact Out |]. split.
      * now rewrite (updateEntities_game_throws dt w St Out).
      * now rewrite (render_game_throws w St Out).
  - intros N i ls.
    assert (N' : state (game (with_levels i ls w)) <> "game"%string) by exact N.
    split; [now apply updateEntities_idle |].
    pose proof (render_off_game_run _ N') as R'.
    pose proof (render_off_game_run _ N) as R.
    split; [now rewrite R' |].
    rewrite (issued_app render (with_levels i ls w) _
               ltac:(rewrite R'; reflexivity)).
    rewrite (issued_app render w _ ltac:(rewrite R; reflexivity)).
    reflexivity.
Qed.
End UpdateClaims.

(** ** The engine on the concrete game *)

Section OnTheDemoGame.
Local Open Scope engine_scope.
Local Open Scope string_scope.

#[local] Existing Instance Demo.entities.
Local Abbreviation E := Demo.entities.
Local Abbreviation steady_host := (Demo.host Demo.steady).
Local Abbreviation set_back_host := (Demo.host Demo.set_back).

(** In state "game" at level index 2 with three lives, the status texts
    are "Lives: 3" and "Level: 21". *)
Lemma render_game_status_text_at_lvl2_witness :
  state (game (Demo.world_in "game" 2 3)) = "game" /\
  text_draws (issued (@render E) (Demo.world_in "game" 2 3)) =
    [("Lives: 3", 125, 37); ("Level: 21", 375, 37)].
Proof.
  split; [reflexivity |].
  eapply (@render_game_status_text_at_lvl2 E (Demo.world_in "game" 2 3));
    reflexivity.
Defined.

(** On the "win" screen of the concrete game no sprite is drawn at 202 (nor
    at 253): the offsets are 151, 252 and 201. *)
Lemma render_win_offsets_counterexample :
  ~ sprites_at_151_202_253 (issued (@render E) (Demo.world_in "win" 0 3)).
Proof.
  intros (_ & _ & At202 & _). vm_compute in At202.
  intuition discriminate.
Qed.

Lemma render_win_draws_three_sprites_witness :
  state (game (Demo.world_in "win" 0 3)) = "win" /\
  map horizontal (sprite_draws (issued (@render E) (Demo.world_in "win" 0 3)))
  = [151; 252; 201].
Proof.
  split; [reflexivity |].
  apply (@render_win_draws_three_sprites E (Demo.world_in "win" 0 3)).
  reflexivity.
Defined.

Lemma update_calls_each_enemy_then_player_witness :
  state (game (Demo.world_in "game" 1 3)) = "game" /\
  issued (@update E 0.5%float) (Demo.world_in "game" 1 3) =
    [Call (OnEnemy (0%float, 50%float)) "update" [0.5%float];
     Call (OnEnemy (100%float, 50%float)) "update" [0.5%float];
     Call (OnPlayer Demo.girl) "update" []].
Proof.
  split; [reflexivity |].
  eapply (@update_calls_each_enemy_then_player E 0.5%float
            (Demo.world_in "game" 1 3));
    reflexivity.
Defined.

Lemma update_outside_game_is_noop_witness :
  state (game (Demo.world_in "start" 1 3)) <> "game" /\
  @updateEntities E 0.5%float (Demo.world_in "start" 1 3) =
    Ok tt (Demo.world_in "start" 1 3).
Proof.
  split; [discriminate |].
  apply (@update_outside_game_is_noop E 0.5%float (Demo.world_in "start" 1 3)).
  discriminate.
Defined.

Lemma render_start_draws_five_sprites_witness :
  List.length (characters (selector (game (Demo.world_in "start" 0 3)))) = 5%nat /\
  List.length (sprite_draws (issued (@render E) (Demo.world_in "start" 0 3)))
  = 5%nat.
Proof.
  split; [reflexivity |].
  apply (@render_start_draws_five_sprites E (Demo.world_in "start" 0 3));
    reflexivity.
Defined.

Lemma render_unknown_state_draws_background_only_witness :
  issued (@render E) (Demo.world_in "paused" 0 3) = background_clear.
Proof.
  refine (proj2 (@render_unknown_state_draws_background_only E
                   (Demo.world_in "paused" 0 3) _ _ _ _));
    intros Q; vm_compute in Q; discriminate Q.
Defined.

(** With three levels, index 2 is read and both calls return; index 3 is
    not a level and both calls throw; on the "over" screen the index and the
    level array do not matter. *)
Lemma level_index_read_only_in_game_state_witness :
  (completed (@render E (Demo.world_in "game" 2 3)) = true /\
   completed (@render E (Demo.world_in "game" 3 3)) = false) /\
  issued (@render E) (with_levels 7 [] (Demo.world_in "over" 0 3)) =
  issued (@render E) (Demo.world_in "over" 0 3).
Proof.
  split; [split |].
  - destruct (@level_index_read_only_in_game_state E 0.5%float
                (Demo.world_in "game" 2 3)) as [G _].
    destruct (G eq_refl) as [In _].
    destruct In as (l & _ & _ & R); [unfold lvl_in_range; simpl; lia |].
    exact R.
  - destruct (@level_index_read_only_in_game_state E 0.5%float
                (Demo.world_in "game" 3 3)) as [G _].
    destruct (G eq_refl) as [_ Out].
    destruct Out as (_ & _ & R); [| exact R].
    unfold lvl_in_range. simpl. lia.
  - destruct (@level_index_read_only_in_game_state E 0.5%float
                (Demo.world_in "over" 0 3)) as [_ O].
    apply O. discriminate.
Defined.

(** [init] followed by one call of [main] runs two frames, not one; and
    when the system clock is set back between the two samples [init] and its
    tick take, [lastTime] ends below the first sample. *)
Lemma round_trip_counterexample :
  ~ @frames_since E steady_host 1 (@init E steady_host ;; @main E steady_host)
      (Demo.world_in "over" 0 3)
  /\ ~ @frames_since E set_back_host 1 (@init E set_back_host) (Demo.world_in "over" 0 3).
Proof.
  split.
  - intros (w' & Run & _ & U & _).
    vm_compute in Run. inversion Run; subst w'.
    vm_compute in U. discriminate.
  - intros (w' & Run & (t & L & Le) & _).
    vm_compute in Run. inversion Run; subst w'.
    simpl in L. inversion L; subst t.
    vm_compute in Le. now apply Le.
Qed.

End OnTheDemoGame.

(** ** What each function never does *)

Ltac walk_step refl trans :=
  match goal with
  | |- respects _ (bind _ _) =>
      apply respects_bind; [exact trans | | intros ?]
  | |- respects _ (if ?b then _ else _) => destruct b
  | |- respects _ (match ?o with Some _ => _ | None => _ end) => destruct o
  | |- respects _ (ret _) => apply respects_ret; exact refl
  | |- respects _ (throw _) => apply respects_throw; exact refl
  | |- respects _ (forEach _ _) =>
      apply respects_forEach_from; [exact refl | exact trans | intros ? ?]
  end.

Ltac walk refl trans leaf := repeat first [ walk_step refl trans | leaf ].

Section Never.
Context `{Entities}.
Local Open Scope engine_scope.

Lemma adds_only_refl P w : adds_only P w w.
Proof. exists []. split; [now rewrite app_nil_r | constructor]. Qed.

Lemma adds_only_trans P a b c :
  adds_only P a b -> adds_only P b c -> adds_only P a c.
Proof.
  intros (m1 & E1 & F1) (m2 & E2 & F2). exists (m1 ++ m2). split.
  - now rewrite E2, E1, app_assoc.
  - apply Forall_app. now split.
Qed.

Lemma record_adds_only (P : Event -> Prop) ev :
  P ev -> respects (adds_only P) (record ev).
Proof.
  intros Pev w. exists [ev]. split; [reflexivity | now constructor].
Qed.

Lemma read_game_adds_nothing P : respects (adds_only P) read_game.
Proof. intros w. apply adds_only_refl. Qed.

Lemma write_game_adds_nothing P g : respects (adds_only P) (write_game g).
Proof. intros w. exists []. split; [simpl; now rewrite app_nil_r | constructor]. Qed.

Lemma render_done_adds_nothing P : respects (adds_only P) render_done.
Proof. intros w. exists []. split; [simpl; now rewrite app_nil_r | constructor]. Qed.

Lemma update_done_adds_nothing P : respects (adds_only P) update_done.
Proof. intros w. exists []. split; [simpl; now rewrite app_nil_r | constructor]. Qed.

Lemma issued_of_adds_only {A} P (c : M A) :
  respects (adds_only P) c -> forall w, Forall P (issued c w).
Proof.
  intros R w. destruct (R w) as (more & E & F).
  now rewrite (issued_app c w more E).
Qed.

Lemma render_adds_render_calls : respects (adds_only is_render_call) render.
Proof.
  unfold render, render_background, render_switch, render_game, render_start,
    render_win, render_over, current_level, call_render, ctx.
  walk (adds_only_refl is_render_call) (adds_only_trans is_render_call)
    ltac:(first
      [ apply record_adds_only;
        first [ left; eexists; reflexivity | right; eexists; reflexivity ]
      | apply read_game_adds_nothing
      | apply render_done_adds_nothing ]).
Qed.

Lemma update_adds_update_calls dt :
  respects (adds_only (is_update_call dt)) (update dt).
Proof.
  unfold update, updateEntities, current_level, call_enemy_update,
    call_player_update.
  walk (adds_only_refl (is_update_call dt))
       (adds_only_trans (is_update_call dt))
    ltac:(first
      [ apply record_adds_only;
        first [ left; eexists; reflexivity | right; eexists; reflexivity ]
      | apply read_game_adds_nothing
      | apply write_game_adds_nothing
      | apply update_done_adds_nothing ]).
Qed.

(** X9. In every world, whatever the state and whether it returns or
    throws, [update(dt)] makes no call on the canvas context and none on the
    page: every call it adds to the record is [update(dt)] on an enemy or
    [update()] on the player. *)
Theorem update_never_draws :
  forall (dt : float) (w : World),
    Forall (is_update_call dt) (issued (update dt) w) /\
    sprite_draws (issued (update dt) w) = [] /\
    text_draws (issued (update dt) w) = [] /\
    scheduled (issued (update dt) w) = 0%nat.
Proof.
  intros dt w.
  pose proof (issued_of_adds_only _ _ (update_adds_update_calls dt) w) as F.
  split; [exact F |].
  induction F as [| ev evs Pev _ IH]; [repeat split |].
  destruct IH as (S1 & S2 & S3).
  destruct Pev as [[e ->] | [p ->]]; simpl; repeat split; assumption.
Qed.

(** X10. In every world, whatever the state and whether it returns or
    throws, every call [render] adds to the record is a call on the canvas
    context or [render()], without argument, on an entity: it calls no
    [update], and it requests no animation frame. *)
Theorem render_never_updates_nor_schedules :
  forall w : World,
    Forall is_render_call (issued render w) /\
    (forall r m args, In (Call r m args) (issued render w) ->
                      m = "render"%string /\ args = []) /\
    scheduled (issued render w) = 0%nat.
Proof.
  intros w.
  pose proof (issued_of_adds_only _ _ render_adds_render_calls w) as F.
  split; [exact F |]. split.
  - intros r m args I.
    rewrite Forall_forall in F. destruct (F _ I) as [[c Ec] | [r' Er]].
    + discriminate Ec.
    + injection Er as _ -> ->. now split.
  - induction F as [| ev evs Pev _ IH]; [reflexivity |].
    destruct Pev as [[c ->] | [r ->]]; exact IH.
Qed.
End Never.

(** ** One frame as a function of the game *)

Section FrameOfGame.
Context `{Entities}.
Local Open Scope engine_scope.

(** The whole record of one [render], in every world. *)
Lemma render_record w :
  issued render w = background_clear ++ screen_of (game w) /\
  completed (render w) = level_readable (game w).
Proof.
  unfold screen_of, level_readable.
  destruct (string_dec (state (game w)) "game") as [St | N].
  - rewrite St. cbn [String.eqb Ascii.eqb Bool.eqb].
    destruct (index (levels (game w)) (lvl (game w))) as [l |] eqn:E.
    + rewrite (render_game_run w l St E). split; [| reflexivity].
      apply issued_app. now rewrite (render_game_run w l St E).
    + rewrite (render_game_throws w St E). split; [| reflexivity].
      apply issued_app. rewrite (render_game_throws w St E).
      reflexivity.
  - rewrite (eqb_false_of_neq _ _ N).
    rewrite (render_off_game_run w N). split; [| reflexivity].
    apply issued_app. now rewrite (render_off_game_run w N).
Qed.

(** X12. What [render] draws is a function of the [game] object alone: two
    worlds with the same [game], whatever their call records, clocks and
    [lastTime], get the same calls from [render], and it returns in both or
    throws in both.  So a second [render] right after a first repeats it
    call for call. *)
Theorem render_depends_on_game_only :
  forall w1 w2 : World,
    game w1 = game w2 ->
    issued render w1 = issued render w2 /\
    completed (render w1) = completed (render w2) /\
    issued render (final (render w1)) = issued render w1.
Proof.
  intros w1 w2 G.
  destruct (render_record w1) as [I1 C1].
  destruct (render_record w2) as [I2 C2].
  destruct (render_record (final (render w1))) as [I3 _].
  rewrite I1, I2, I3, C1, C2, (render_same_game w1), G.
  repeat split.
Qed.
End FrameOfGame.

(** ** More on the screens *)

Section MoreScreens.
Context `{Entities}.
Local Open Scope engine_scope.

Lemma receivers_app a b : receivers (a ++ b) = receivers a ++ receivers b.
Proof. apply flat_map_app. Qed.

Lemma receivers_of_calls {A} (f : A -> Receiver) m (xs : list A) :
  receivers (map (fun x => Call (f x) m []) xs) = map f xs.
Proof. induction xs as [| x xs IH]; simpl; [| rewrite IH]; reflexivity. Qed.

Lemma sprite_draws_of_calls {A} (f : A -> Receiver) m (xs : list A) :
  sprite_draws (map (fun x => Call (f x) m []) xs) = [].
Proof. induction xs as [| x xs IH]; simpl; auto. Qed.

Lemma sprite_draws_of_images {A} (img : A -> Image) (x y : A -> Z) xs :
  sprite_draws (map (fun a => Ctx (drawImage (img a) (x a) (y a))) xs) =
  map (fun a => (img a, x a, y a)) xs.
Proof. induction xs as [| a xs IH]; simpl; [| rewrite IH]; reflexivity. Qed.

Lemma text_draws_of_images {A} (img : A -> Image) (x y : A -> Z) xs :
  text_draws (map (fun a => Ctx (drawImage (img a) (x a) (y a))) xs) = [].
Proof. induction xs as [| a xs IH]; simpl; auto. Qed.

Lemma receivers_of_images {A} (img : A -> Image) (x y : A -> Z) xs :
  receivers (map (fun a => Ctx (drawImage (img a) (x a) (y a))) xs) = [].
Proof. induction xs as [| a xs IH]; simpl; auto. Qed.

Lemma nth_error_indexed_from {A} (a : list A) :
  forall k i x,
    nth_error a i = Some x ->
    nth_error (indexed_from k a) i = Some ((k + i)%nat, x).
Proof.
  unfold indexed_from.
  induction a as [| y rest IH]; intros k [| i] x E; simpl in *;
    try discriminate.
  - injection E as ->. now rewrite Nat.add_0_r.
  - rewrite (IH (S k) i x E). f_equal. f_equal. lia.
Qed.

Lemma indexed_from_length {A} (a : list A) k :
  List.length (indexed_from k a) = List.length a.
Proof.
  unfold indexed_from. rewrite length_combine, length_seq. lia.
Qed.

Lemma in_indexed_from {A} (a : list A) k ix :
  In ix (indexed_from k a) -> In (snd ix) a.
Proof.
  unfold indexed_from. destruct ix as [i x]. apply in_combine_r.
Qed.

Lemma sprite_draws_start_screen g :
  sprite_draws (start_screen g) =
  map (fun ic => (Resources_get (sprite (snd ic)),
                  Z.of_nat (fst ic) * 101 + 50, 3 * 83 - 20))
      (indexed_from 0 (characters (selector g))).
Proof.
  unfold start_screen. rewrite !sprite_draws_app.
  rewrite (sprite_draws_of_images
             (fun ic : nat * Character => Resources_get (sprite (snd ic)))
             (fun ic => Z.of_nat (fst ic) * 101 + 50)
             (fun _ => 3 * 83 - 20)).
  simpl. now rewrite app_nil_r.
Qed.

Lemma issued_render_start w :
  state (game w) = "start"%string ->
  issued render w = background_clear ++ start_screen (game w).
Proof.
  intros St. apply issued_app. now rewrite (render_start_run w St).
Qed.

(** X5. In state "start", whatever the number of entries of
    [game.selector.characters], [render] draws one sprite per entry and no
    other: the entry at index [i] is drawn [i]-th, at horizontal offset
    [i * 101 + 50] and vertical offset 229; with no entry, no sprite.  The
    selector's own [render()] is the only method called, and the two texts
    are the title at (252, 100) and the instruction at (252, 160). *)
Theorem render_start_one_sprite_per_character :
  forall w : World,
    state (game w) = "start"%string ->
    let chr := characters (selector (game w)) in
    let draws := sprite_draws (issued render w) in
    List.length draws = List.length chr /\
    (forall (i : nat) (c : Character),
        nth_error chr i = Some c ->
        nth_error draws i =
          Some (Resources_get (sprite c), Z.of_nat i * 101 + 50, 229)) /\
    receivers (issued render w) = [OnSelector (selector (game w))] /\
    text_draws (issued render w) =
      [("Select Your Heroine!"%string, 252, 100);
       ("Press Space or Enter to Begin"%string, 252, 160)].
Proof.
  intros w St chr draws. subst chr draws.
  rewrite (issued_render_start w St).
  rewrite sprite_draws_app, sprite_draws_start_screen.
  change (sprite_draws background_clear) with (@nil (Image * Z * Z)).
  rewrite app_nil_l. split; [| split; [| split]].
  - now rewrite length_map, indexed_from_length.
  - intros i c E.
    rewrite nth_error_map, (nth_error_indexed_from _ 0%nat i c E).
    reflexivity.
  - unfold start_screen. rewrite !receivers_app.
    rewrite (receivers_of_images
               (fun ic : nat * Character => Resources_get (sprite (snd ic)))
               (fun ic => Z.of_nat (fst ic) * 101 + 50)
               (fun _ => 3 * 83 - 20)).
    reflexivity.
  - unfold start_screen. rewrite !text_draws_app.
    rewrite (text_draws_of_images
               (fun ic : nat * Character => Resources_get (sprite (snd ic)))
               (fun ic => Z.of_nat (fst ic) * 101 + 50)
               (fun _ => 3 * 83 - 20)).
    reflexivity.
Qed.

(** X6. In state "over" [render] returns having drawn, after the
    background, two texts and nothing else: "Game Over!" at (252, 100) and
    the restart instruction at (252, 160); no sprite is drawn and no entity
    is asked to render itself. *)
Theorem render_over_draws_two_texts_only :
  forall w : World,
    state (game w) = "over"%string ->
    completed (render w) = true /\
    text_draws (issued render w) =
      [("Game Over!"%string, 252, 100);
       ("Press Space or Enter to Restart"%string, 252, 160)] /\
    sprite_draws (issued render w) = [] /\
    receivers (issued render w) = [].
Proof.
  intros w St.
  destruct (render_record w) as [I C].
  rewrite I, C. unfold level_readable, screen_of, screen_off_game.
  rewrite St. cbn [String.eqb Ascii.eqb Bool.eqb].
  repeat split.
Qed.

(** X7. In state "game" with a level [l] at [lvl], [render] draws no
    sprite itself: after the background it asks, in this order, the level,
    each enemy of [l.enemies] in array order, and the player to render
    themselves, each once and without argument. *)
Theorem render_game_delegates_in_order :
  forall (w : World) (l : Level),
    state (game w) = "game"%string ->
    index (levels (game w)) (lvl (game w)) = Some l ->
    receivers (issued render w) =
      OnLevel l :: map OnEnemy (enemies l) ++ [OnPlayer (player (game w))] /\
    sprite_draws (issued render w) = [].
Proof.
  intros w l St E.
  rewrite (issued_app render w (background_clear ++ game_screen (game w) l))
    by now rewrite (render_game_run w l St E).
  unfold game_screen. split.
  - rewrite !receivers_app, (receivers_of_calls OnEnemy). reflexivity.
  - rewrite !sprite_draws_app, (sprite_draws_of_calls OnEnemy). reflexivity.
Qed.
(** X14. In state "win" [render] returns having drawn, after the background
    and the three sprites, the texts "You Win!" at (252, 100) and the restart
    instruction at (252, 160); no entity is asked to render itself: the
    player appears only through the engine's own [drawImage] of its sprite. *)
Theorem render_win_texts_and_no_delegation :
  forall w : World,
    state (game w) = "win"%string ->
    completed (render w) = true /\
    text_draws (issued render w) =
      [("You Win!"%string, 252, 100);
       ("Press Space or Enter to Restart"%string, 252, 160)] /\
    receivers (issued render w) = [].
Proof.
  intros w St.
  destruct (render_record w) as [I C].
  rewrite I, C. unfold level_readable, screen_of, screen_off_game.
  rewrite St. cbn [String.eqb Ascii.eqb Bool.eqb].
  repeat split.
Qed.
End MoreScreens.

(** ** Text settings and images, in every state *)

Section PenAndImages.
Context `{Entities}.
Local Open Scope engine_scope.

Lemma styled_texts_after_calls {A} (f : A -> Receiver) m (xs : list A) :
  forall p r m' a' rest,
    styled_texts p (map (fun x => Call (f x) m []) xs ++ Call r m' a' :: rest)
    = styled_texts unknown_pen rest.
Proof.
  induction xs as [| x xs IH]; intros p r m' a' rest; simpl.
  - reflexivity.
  - apply IH.
Qed.

Lemma styled_texts_after_images {A} (img : A -> Image) (x y : A -> Z) xs :
  forall p rest,
    styled_texts p (map (fun a => Ctx (drawImage (img a) (x a) (y a))) xs
                    ++ rest)
    = styled_texts p rest.
Proof.
  induction xs as [| a xs IH]; intros p rest; simpl; [reflexivity | apply IH].
Qed.

Ltac all_black :=
  repeat (apply Forall_cons;
          [ unfold black_and_centred; simpl; repeat split;
            first [ reflexivity | left; reflexivity | right; reflexivity ]
          | ]);
  try apply Forall_nil.

(** X8. In every world and every state, each text [render] draws is drawn
    with [fillStyle] "black" and [textAlign] "center", in bold 20pt or bold
    14pt Calibri, all three set by [render] itself after the last call whose
    body is elsewhere: never with the white of the background fill, and
    never with what an entity's [render()] may have left in the context. *)
Theorem render_texts_are_black_and_centred :
  forall w : World,
    Forall black_and_centred (styled_texts unknown_pen (issued render w)).
Proof.
  intros w. destruct (render_record w) as [I _]. rewrite I.
  unfold screen_of, screen_off_game.
  destruct (String.eqb (state (game w)) "game").
  { destruct (index (levels (game w)) (lvl (game w))) as [l |].
    - unfold game_screen. simpl.
      rewrite (styled_texts_after_calls OnEnemy). all_black.
    - simpl. constructor. }
  destruct (String.eqb (state (game w)) "start").
  { unfold start_screen. simpl.
    rewrite (styled_texts_after_images
               (fun ic : nat * Character => Resources_get (sprite (snd ic)))
               (fun ic => Z.of_nat (fst ic) * 101 + 50)
               (fun _ => 3 * 83 - 20)).
    all_black. }
  destruct (String.eqb (state (game w)) "win"); [simpl; all_black |].
  destruct (String.eqb (state (game w)) "over"); simpl; all_black.
Qed.

(** X13. When the player's sprite and the sprite of every entry of
    [game.selector.characters] are among the URLs the engine hands to
    [Resources.load], every image [render] asks [Resources.get] for and
    draws, in any state, is one of those URLs: the two URLs written out in
    the "win" screen are in the list. *)
Theorem render_draws_only_preloaded_images :
  forall w : World,
    In (player_sprite (player (game w))) preloaded ->
    Forall (fun c => In (sprite c) preloaded)
           (characters (selector (game w))) ->
    Forall (fun d => In (image_url (fst (fst d))) preloaded)
           (sprite_draws (issued render w)).
Proof.
  intros w Pl Ch. destruct (render_record w) as [I _]. rewrite I.
  rewrite sprite_draws_app.
  change (sprite_draws background_clear) with (@nil (Image * Z * Z)).
  rewrite app_nil_l. unfold screen_of, screen_off_game.
  destruct (String.eqb (state (game w)) "game").
  { destruct (index (levels (game w)) (lvl (game w))) as [l |];
      [| constructor].
    unfold game_screen.
    rewrite !sprite_draws_app, (sprite_draws_of_calls OnEnemy).
    constructor. }
  destruct (String.eqb (state (game w)) "start").
  { rewrite sprite_draws_start_screen. apply Forall_forall.
    intros d In_d. apply in_map_iff in In_d.
    destruct In_d as (ic & <- & In_ic). simpl.
    rewrite Forall_forall in Ch. apply Ch.
    now apply (in_indexed_from _ 0%nat). }
  destruct (String.eqb (state (game w)) "win").
  { unfold win_screen. cbn [sprite_draws flat_map app].
    apply Forall_cons; [exact Pl |].
    apply Forall_cons; [simpl; tauto |].
    apply Forall_cons; [simpl; tauto |].
    apply Forall_nil. }
  destruct (String.eqb (state (game w)) "over"); constructor.
Qed.
End PenAndImages.

(** ** The tick, step by step *)

Section Tick.
Context `{Host}.
Local Open Scope engine_scope.

(** [main], after its clock sample, is [update] with the computed [dt], then
    [render], then the assignment to [lastTime] and the request for the next
    frame. *)
Lemma main_step w :
  main w =
  (update (tick_dt w) ;;
   render ;;
   write_lastTime (wall_clock (clock_reads w)) ;;
   record (HostEv requestAnimationFrame_main))
    (mkWorld (game w) (lastTime w) (S (clock_reads w)) (calls w)
             (updates_run w) (renders_run w)).
Proof. reflexivity. Qed.

Lemma update_game_run dt w l :
  state (game w) = "game"%string ->
  index (levels (game w)) (lvl (game w)) = Some l ->
  update dt w =
  Ok tt (updated (with_game (entities_updated dt l (game w))
                    (after_calls (update_calls dt l (game w)) w))).
Proof.
  intros St E. unfold update.
  now rewrite (bind_Ok _ _ _ _ _ (updateEntities_game_run dt w l St E)).
Qed.

(** X1. One tick in state "game" with a level [l] at [lvl] records, in this
    order: [update(dt)] on each enemy of [l] in array order and [update()]
    on the player, with [dt = (now - lastTime) / 1000], all before anything
    is drawn; then the background clear; then nothing but calls of [render]
    (canvas calls and [render()] on entities); and, when the tick returns,
    one [requestAnimationFrame(main)] as its last call, with [lastTime] set
    to the sample [now].  What is drawn after the background, and whether
    the tick returns, is decided by the game the [update] methods leave. *)
Theorem main_updates_before_it_draws :
  forall (w : World) (l : Level),
    state (game w) = "game"%string ->
    index (levels (game w)) (lvl (game w)) = Some l ->
    exists drawn,
      Forall is_render_call drawn /\
      issued main w =
        update_calls (tick_dt w) l (game w) ++ background_clear ++ drawn ++
        (if completed (main w)
         then [HostEv requestAnimationFrame_main] else []) /\
      (completed (main w) = true ->
       lastTime (final (main w)) = Some (wall_clock (clock_reads w))).
Proof.
  intros w l St E.
  set (dt := tick_dt w).
  set (w0 := mkWorld (game w) (lastTime w) (S (clock_reads w)) (calls w)
                     (updates_run w) (renders_run w)).
  assert (St0 : state (game w0) = "game"%string) by exact St.
  assert (E0 : index (levels (game w0)) (lvl (game w0)) = Some l) by exact E.
  pose proof (update_game_run dt w0 l St0 E0) as U.
  set (w1 := updated (with_game (entities_updated dt l (game w0))
                        (after_calls (update_calls dt l (game w0)) w0))) in U.
  destruct (render_record w1) as [I _].
  pose proof (issued_of_adds_only _ _ render_adds_render_calls w1) as F.
  rewrite I in F. apply Forall_app in F. destruct F as [_ F].
  destruct (render_adds_render_calls w1) as (m & Em & _).
  rewrite (issued_app render w1 m Em) in I. subst m.
  assert (C1 : calls w1 = calls w ++ update_calls dt l (game w))
    by reflexivity.
  exists (screen_of (game w1)). split; [exact F |].
  assert (M : main w =
    match render w1 with
    | Ok _ w2 =>
        Ok tt (mkWorld (game w2) (Some (wall_clock (clock_reads w)))
                 (clock_reads w2)
                 (calls w2 ++ [HostEv requestAnimationFrame_main])
                 (updates_run w2) (renders_run w2))
    | Throw e w2 => Throw e w2
    end).
  { rewrite main_step. fold w0. fold dt.
    rewrite (bind_Ok _ _ _ _ _ U). unfold bind at 1.
    destruct (render w1) as [u w2 | e w2]; reflexivity. }
  rewrite M.
  destruct (render w1) as [u w2 | e w2]; cbn [final] in Em;
    cbn [completed final lastTime].
  - split; [| reflexivity].
    apply issued_app. rewrite M. cbn [final calls].
    rewrite Em, C1. now rewrite <- !app_assoc.
  - split; [| discriminate].
    apply issued_app. rewrite M. cbn [final].
    rewrite Em, C1. now rewrite app_nil_r, <- !app_assoc.
Qed.
End Tick.

(** ** When a tick throws, and the frames of a running loop *)

Section RunningLoop.
Context `{Host}.
Local Open Scope engine_scope.

(** X2. A tick in state "game" with [lvl] outside the level array throws
    the TypeError at the first thing [update] does; nothing has been called
    or drawn by then, not even the background, [game] and [lastTime] are as
    they were, and no next frame has been requested: the loop ends there. *)
Theorem main_stops_on_missing_level :
  forall w : World,
    state (game w) = "game"%string ->
    ~ lvl_in_range (game w) ->
    completed (main w) = false /\
    issued main w = [] /\
    game (final (main w)) = game w /\
    lastTime (final (main w)) = lastTime w /\
    updates_run (final (main w)) = updates_run w /\
    renders_run (final (main w)) = renders_run w.
Proof.
  intros w St Out. apply index_None_iff in Out.
  set (w0 := mkWorld (game w) (lastTime w) (S (clock_reads w)) (calls w)
                     (updates_run w) (renders_run w)).
  assert (T : main w =
    Throw (TypeError "game.levels[game.lvl] is undefined") w0).
  { rewrite main_step. fold w0. apply bind_Throw. unfold update.
    apply bind_Throw. now apply updateEntities_game_throws. }
  rewrite T. simpl. repeat split.
  apply issued_app. rewrite T. simpl. now rewrite app_nil_r.
Qed.

Lemma main_off_game_run w :
  state (game w) <> "game"%string ->
  main w =
  Ok tt (mkWorld (game w) (Some (wall_clock (clock_reads w)))
           (S (clock_reads w))
           (calls w ++ background_clear ++ screen_off_game (game w) ++
            [HostEv requestAnimationFrame_main])
           (S (updates_run w)) (S (renders_run w))).
Proof.
  intros N. rewrite main_step.
  set (w0 := mkWorld (game w) (lastTime w) (S (clock_reads w)) (calls w)
                     (updates_run w) (renders_run w)).
  assert (N0 : state (game w0) <> "game"%string) by exact N.
  assert (U0 : update (tick_dt w) w0 = Ok tt (updated w0)).
  { unfold update.
    now rewrite (bind_Ok _ _ _ _ _ (updateEntities_idle (tick_dt w) w0 N0)). }
  rewrite (bind_Ok _ _ _ _ _ U0).
  assert (N1 : state (game (updated w0)) <> "game"%string) by exact N.
  rewrite (bind_Ok _ _ _ _ _ (render_off_game_run (updated w0) N1)).
  unfold w0, bind, write_lastTime, record, rendered, after_calls, updated.
  cbn [game lastTime clock_reads calls updates_run renders_run].
  now rewrite <- !app_assoc.
Qed.

(** X3. Whatever state the game was in, when [game.resetGame()] leaves it
    in a state other than "game", [init] returns having, in this order,
    shown the game area, reset the game, drawn the background and the screen
    of the reset game, and requested the next frame; [game] is the reset
    game and [lastTime] the second clock sample. *)
Theorem init_draws_the_reset_game :
  forall w : World,
    state (resetGame (game w)) <> "game"%string ->
    completed (init w) = true /\
    issued init w =
      [HostEv (jquery_css "#game-area" "display" "block");
       HostEv game_resetGame] ++
      background_clear ++ screen_off_game (resetGame (game w)) ++
      [HostEv requestAnimationFrame_main] /\
    game (final (init w)) = resetGame (game w) /\
    lastTime (final (init w)) = Some (wall_clock (S (clock_reads w))).
Proof.
  intros w N.
  set (evs := [HostEv (jquery_css "#game-area" "display" "block");
               HostEv game_resetGame]).
  set (w0 := mkWorld (resetGame (game w)) (Some (wall_clock (clock_reads w)))
                     (S (clock_reads w)) (calls w ++ evs)
                     (updates_run w) (renders_run w)).
  assert (I0 : init w = main w0).
  { unfold init, bind, Date_now, write_lastTime, record, read_game,
      write_game, w0, evs.
    cbn [game lastTime clock_reads calls updates_run renders_run].
    now rewrite <- app_assoc. }
  assert (N0 : state (game w0) <> "game"%string) by exact N.
  rewrite I0, (main_off_game_run w0 N0).
  cbn [completed final game lastTime clock_reads w0].
  repeat split.
  apply issued_app. rewrite I0, (main_off_game_run w0 N0).
  unfold w0. cbn [final calls game]. now rewrite <- app_assoc.
Qed.
(** X15. A tick in any state other than "game" returns with [game] exactly
    as it was: no entity is updated; its record is the background clear, the
    screen of that state and one [requestAnimationFrame(main)], and
    [lastTime] ends as the sample [now]. *)
Theorem main_outside_game_only_redraws :
  forall w : World,
    state (game w) <> "game"%string ->
    completed (main w) = true /\
    game (final (main w)) = game w /\
    issued main w =
      background_clear ++ screen_off_game (game w) ++
      [HostEv requestAnimationFrame_main] /\
    lastTime (final (main w)) = Some (wall_clock (clock_reads w)).
Proof.
  intros w N. rewrite (main_off_game_run w N).
  cbn [completed final game lastTime]. repeat split.
  apply issued_app. now rewrite (main_off_game_run w N).
Qed.
End RunningLoop.

Section ManyFrames.
Context `{Host}.
Local Open Scope engine_scope.

(** [init] is its four preparations followed by [main]. *)
Lemma init_step w :
  init w =
  main (mkWorld (resetGame (game w)) (Some (wall_clock (clock_reads w)))
                (S (clock_reads w))
                (calls w ++ [HostEv (jquery_css "#game-area" "display" "block");
                             HostEv game_resetGame])
                (updates_run w) (renders_run w)).
Proof.
  unfold init, bind, Date_now, write_lastTime, record, read_game, write_game.
  cbn [game lastTime clock_reads calls updates_run renders_run].
  now rewrite <- app_assoc.
Qed.

Lemma main_off_game_frame w :
  state (game w) <> "game"%string ->
  main w =
  Ok tt (mkWorld (game w) (Some (wall_clock (clock_reads w)))
           (S (clock_reads w)) (calls w ++ frame_off_game (game w))
           (S (updates_run w)) (S (renders_run w))).
Proof. intros N. now rewrite (main_off_game_run w N). Qed.

(** [n] ticks in a row in a state other than "game". *)
Lemma ticks_off_game_run n :
  forall w,
    state (game w) <> "game"%string ->
    ticks n w =
    Ok tt (mkWorld (game w)
             (match n with
              | O => lastTime w
              | S m => Some (wall_clock (m + clock_reads w))
              end)
             (n + clock_reads w)
             (calls w ++ List.concat (repeat (frame_off_game (game w)) n))
             (n + updates_run w) (n + renders_run w)).
Proof.
  induction n as [| n IH]; intros w N.
  - simpl. rewrite app_nil_r. now destruct w.
  - simpl ticks. rewrite (bind_Ok _ _ _ _ _ (main_off_game_frame w N)).
    rewrite IH by exact N.
    cbn [game lastTime clock_reads calls updates_run renders_run
         repeat List.concat].
    rewrite <- app_assoc, !Nat.add_succ_r.
    destruct n as [| m]; [reflexivity |].
    now rewrite Nat.add_succ_r.
Qed.

(** X4. When [game.resetGame()] leaves the game in a state other than
    "game", [init] followed by any number [n] of further ticks, with nothing
    else changing [game] in between, returns: [game] is still the reset
    game, exactly [n + 1] [update]s and [n + 1] [render]s have run, the
    clock has been sampled [n + 2] times and [lastTime] is the last sample;
    the record is the two preparations of [init] followed by [n + 1] times
    the same frame, each ending in one [requestAnimationFrame(main)]. *)
Theorem loop_outside_game_repeats_one_frame :
  forall (n : nat) (w : World),
    state (resetGame (game w)) <> "game"%string ->
    exists w',
      (init ;; ticks n) w = Ok tt w' /\
      game w' = resetGame (game w) /\
      updates_run w' = (S n + updates_run w)%nat /\
      renders_run w' = (S n + renders_run w)%nat /\
      clock_reads w' = (S (S n) + clock_reads w)%nat /\
      lastTime w' = Some (wall_clock (S n + clock_reads w)) /\
      issued (init ;; ticks n) w =
        [HostEv (jquery_css "#game-area" "display" "block");
         HostEv game_resetGame] ++
        List.concat (repeat (frame_off_game (resetGame (game w))) (S n)).
Proof.
  intros n w N.
  set (w0 := mkWorld (resetGame (game w)) (Some (wall_clock (clock_reads w)))
                     (S (clock_reads w))
                     (calls w ++
                      [HostEv (jquery_css "#game-area" "display" "block");
                       HostEv game_resetGame])
                     (updates_run w) (renders_run w)).
  assert (N0 : state (game w0) <> "game"%string) by exact N.
  assert (Run : (init ;; ticks n) w = ticks (S n) w0).
  { unfold bind at 1. rewrite init_step. reflexivity. }
  rewrite Run, (ticks_off_game_run (S n) w0 N0).
  eexists. split; [reflexivity |].
  cbn [game lastTime clock_reads calls updates_run renders_run w0].
  split; [reflexivity |]. split; [lia |]. split; [lia |]. split; [lia |].
  split; [f_equal; f_equal; lia |].
  apply issued_app. rewrite Run, (ticks_off_game_run (S n) w0 N0).
  cbn [final calls game w0]. now rewrite <- app_assoc.
Qed.
End ManyFrames.

(** ** The round trip of [init] and one more tick *)

Section RoundTrip.
Context `{Host}.
Local Open Scope engine_scope.

(** C5 (as the code has it). [init] performs the first tick itself.  When
    [game.resetGame()] leaves the game in a state other than "game", a call
    of [init] returns with [lastTime] holding exactly the timestamp its tick
    sampled, the second sample of the clock, and with exactly one [update]
    and one [render] run; [init] followed by one more call of [main] returns
    with [lastTime] holding the third sample and exactly two
    [update]/[render] pairs run.  When moreover the wall clock is never set
    back, both values of [lastTime] are no smaller than the timestamp [init]
    sampled first. *)
Theorem init_runs_one_frame_and_next_tick_a_second :
  forall w : World,
    state (resetGame (game w)) <> "game"%string ->
    (exists w1,
        init w = Ok tt w1 /\
        lastTime w1 = Some (wall_clock (S (clock_reads w))) /\
        updates_run w1 = S (updates_run w) /\
        renders_run w1 = S (renders_run w)) /\
    (exists w2,
        (init ;; main) w = Ok tt w2 /\
        lastTime w2 = Some (wall_clock (S (S (clock_reads w)))) /\
        updates_run w2 = S (S (updates_run w)) /\
        renders_run w2 = S (S (renders_run w))) /\
    (clock_never_set_back ->
     frames_since 1 init w /\ frames_since 2 (init ;; main) w).
Proof.
  intros w N.
  set (w0 := mkWorld (resetGame (game w)) (Some (wall_clock (clock_reads w)))
                     (S (clock_reads w))
                     (calls w ++
                      [HostEv (jquery_css "#game-area" "display" "block");
                       HostEv game_resetGame])
                     (updates_run w) (renders_run w)).
  assert (N0 : state (game w0) <> "game"%string) by exact N.
  pose proof (main_off_game_frame w0 N0) as M1.
  set (w1 := mkWorld (game w0) (Some (wall_clock (clock_reads w0)))
                     (S (clock_reads w0)) (calls w0 ++ frame_off_game (game w0))
                     (S (updates_run w0)) (S (renders_run w0))) in M1.
  assert (N1 : state (game w1) <> "game"%string) by exact N.
  pose proof (main_off_game_frame w1 N1) as M2.
  assert (I1 : init w = Ok tt w1) by (rewrite init_step; exact M1).
  assert (I2 : (init ;; main) w =
               Ok tt (mkWorld (game w1) (Some (wall_clock (clock_reads w1)))
                        (S (clock_reads w1))
                        (calls w1 ++ frame_off_game (game w1))
                        (S (updates_run w1)) (S (renders_run w1))))
    by (rewrite (bind_Ok _ _ _ _ _ I1); exact M2).
  split; [| split].
  - exists w1. split; [exact I1 |]. repeat split.
  - eexists. split; [exact I2 |]. repeat split.
  - intros Mono. split.
    + exists w1. split; [exact I1 |]. split; [| split; reflexivity].
      eexists. split; [reflexivity |]. apply Mono. cbn [clock_reads w0]. lia.
    + eexists. split; [exact I2 |]. split; [| split; reflexivity].
      eexists. split; [reflexivity |]. apply Mono.
      cbn [clock_reads w1 w0]. lia.
Qed.
End RoundTrip.

(** ** Frames of the concrete game *)

Section FramesOfTheDemoGame.
Local Open Scope engine_scope.
Local Open Scope string_scope.

#[local] Existing Instance Demo.entities.
Local Abbreviation E := Demo.entities.
Local Abbreviation steady_host := (Demo.host Demo.steady).

Lemma main_updates_before_it_draws_witness :
  state (game (Demo.world_in "game" 1 3)) = "game" /\
  exists drawn,
    issued (@main E steady_host) (Demo.world_in "game" 1 3) =
      ([Call (OnEnemy (0%float, 50%float)) "update"
             [@tick_dt E steady_host (Demo.world_in "game" 1 3)];
        Call (OnEnemy (100%float, 50%float)) "update"
             [@tick_dt E steady_host (Demo.world_in "game" 1 3)];
        Call (OnPlayer Demo.girl) "update" []] ++
       background_clear ++ drawn ++ [HostEv requestAnimationFrame_main])%list.
Proof.
  split; [reflexivity |].
  destruct (@main_updates_before_it_draws E steady_host
              (Demo.world_in "game" 1 3) (mkLevel (Demo.bugs 2) Demo.rows)
              eq_refl eq_refl) as (drawn & _ & I & _).
  exists drawn. exact I.
Defined.

Lemma main_stops_on_missing_level_witness :
  ~ lvl_in_range (game (Demo.world_in "game" 3 3)) /\
  issued (@main E steady_host) (Demo.world_in "game" 3 3) = [].
Proof.
  assert (Out : ~ lvl_in_range (game (Demo.world_in "game" 3 3))).
  { unfold lvl_in_range. simpl. lia. }
  split; [exact Out |].
  apply (@main_stops_on_missing_level E steady_host
           (Demo.world_in "game" 3 3) eq_refl Out).
Defined.

Lemma init_draws_the_reset_game_witness :
  state (@resetGame E steady_host (game (Demo.world_in "win" 2 0))) <> "game" /\
  state (game (final (@init E steady_host (Demo.world_in "win" 2 0)))) = "start".
Proof.
  assert (N : state (@resetGame E steady_host (game (Demo.world_in "win" 2 0)))
              <> "game") by discriminate.
  split; [exact N |].
  destruct (@init_draws_the_reset_game E steady_host
              (Demo.world_in "win" 2 0) N) as (_ & _ & G & _).
  now rewrite G.
Defined.

Lemma loop_outside_game_repeats_one_frame_witness :
  state (@resetGame E steady_host (game (Demo.world_in "over" 0 0))) <> "game" /\
  exists w',
    (@init E steady_host ;; @ticks E steady_host 3) (Demo.world_in "over" 0 0)
    = Ok tt w' /\
    updates_run w' = 4%nat /\ renders_run w' = 4%nat /\
    lastTime w' = Some (Demo.steady 4).
Proof.
  assert (N : state (@resetGame E steady_host (game (Demo.world_in "over" 0 0)))
              <> "game") by discriminate.
  split; [exact N |].
  destruct (@loop_outside_game_repeats_one_frame E steady_host 3
              (Demo.world_in "over" 0 0) N)
    as (w' & Run & _ & U & R & _ & L & _).
  exists w'. split; [exact Run |]. split; [exact U |]. split; [exact R |].
  exact L.
Defined.

Lemma render_start_one_sprite_per_character_witness :
  state (game (Demo.world_in "start" 0 3)) = "start" /\
  List.length (sprite_draws (issued (@render E) (Demo.world_in "start" 0 3)))
  = 5%nat.
Proof.
  split; [reflexivity |].
  destruct (@render_start_one_sprite_per_character E
              (Demo.world_in "start" 0 3) eq_refl) as (L & _).
  exact L.
Defined.

Lemma render_over_draws_two_texts_only_witness :
  state (game (Demo.world_in "over" 0 0)) = "over" /\
  sprite_draws (issued (@render E) (Demo.world_in "over" 0 0)) = [].
Proof.
  split; [reflexivity |].
  destruct (@render_over_draws_two_texts_only E
              (Demo.world_in "over" 0 0) eq_refl) as (_ & _ & S & _).
  exact S.
Defined.

Lemma render_game_delegates_in_order_witness :
  state (game (Demo.world_in "game" 1 3)) = "game" /\
  receivers (issued (@render E) (Demo.world_in "game" 1 3)) =
    [OnLevel (mkLevel (Demo.bugs 2) Demo.rows);
     OnEnemy (0%float, 50%float); OnEnemy (100%float, 50%float);
     OnPlayer Demo.girl].
Proof.
  split; [reflexivity |].
  destruct (@render_game_delegates_in_order E (Demo.world_in "game" 1 3)
              (mkLevel (Demo.bugs 2) Demo.rows) eq_refl eq_refl) as (R & _).
  exact R.
Defined.

Lemma render_depends_on_game_only_witness :
  game (Demo.world_in "win" 0 3) =
  game (mkWorld (Demo.game_in "win" 0 3) (Some 5) 9 [HostEv game_resetGame] 4 4)
  /\
  issued (@render E) (Demo.world_in "win" 0 3) =
  issued (@render E)
    (mkWorld (Demo.game_in "win" 0 3) (Some 5) 9 [HostEv game_resetGame] 4 4).
Proof.
  split; [reflexivity |].
  destruct (@render_depends_on_game_only E (Demo.world_in "win" 0 3)
              (mkWorld (Demo.game_in "win" 0 3) (Some 5) 9
                       [HostEv game_resetGame] 4 4) eq_refl) as (I & _).
  exact I.
Defined.

Lemma render_draws_only_preloaded_images_witness :
  In (player_sprite (player (game (Demo.world_in "win" 0 3)))) preloaded /\
  Forall (fun d => In (image_url (fst (fst d))) preloaded)
         (sprite_draws (issued (@render E) (Demo.world_in "win" 0 3))).
Proof.
  assert (Pl : In (player_sprite (player (game (Demo.world_in "win" 0 3))))
                  preloaded) by (simpl; tauto).
  split; [exact Pl |].
  apply (@render_draws_only_preloaded_images E (Demo.world_in "win" 0 3) Pl).
  repeat (apply Forall_cons; [simpl; tauto |]). apply Forall_nil.
Defined.
Lemma render_win_texts_and_no_delegation_witness :
  state (game (Demo.world_in "win" 0 3)) = "win" /\
  receivers (issued (@render E) (Demo.world_in "win" 0 3)) = [].
Proof.
  split; [reflexivity |].
  destruct (@render_win_texts_and_no_delegation E
              (Demo.world_in "win" 0 3) eq_refl) as (_ & _ & R).
  exact R.
Defined.

Lemma main_outside_game_only_redraws_witness :
  state (game (Demo.world_in "start" 0 3)) <> "game" /\
  game (final (@main E steady_host (Demo.world_in "start" 0 3))) =
  Demo.game_in "start" 0 3.
Proof.
  assert (N : state (game (Demo.world_in "start" 0 3)) <> "game")
    by discriminate.
  split; [exact N |].
  destruct (@main_outside_game_only_redraws E steady_host
              (Demo.world_in "start" 0 3) N) as (_ & G & _).
  exact G.
Defined.

(** On the concrete game, whose reset state is "start", with the steady
    clock: after [init], [lastTime] is the second sample. *)
Lemma init_runs_one_frame_and_next_tick_a_second_witness :
  state (@resetGame E steady_host (game (Demo.world_in "over" 0 3))) <> "game" /\
  (exists w1,
      @init E steady_host (Demo.world_in "over" 0 3) = Ok tt w1 /\
      lastTime w1 = Some (Demo.steady 1) /\
      updates_run w1 = 1%nat /\ renders_run w1 = 1%nat) /\
  @frames_since E steady_host 2 (@init E steady_host ;; @main E steady_host)
    (Demo.world_in "over" 0 3).
Proof.
  assert (N : state (@resetGame E steady_host (game (Demo.world_in "over" 0 3)))
              <> "game") by discriminate.
  split; [exact N |].
  destruct (@init_runs_one_frame_and_next_tick_a_second E steady_host
              (Demo.world_in "over" 0 3) N) as (One & _ & Mono).
  split; [exact One |].
  apply Mono.
  intros a b Le. unfold wall_clock, Demo.host, Demo.steady. lia.
Defined.
End FramesOfTheDemoGame.
